(** * fir: a form controller over a zod schema

    A shallow embedding of [src/lib/useForm.ts] (the [useForm] hook) and of
    the helpers of [src/lib/utils] it calls, followed by the properties of
    the specification that the embedding settles.

    Layout:
    - [JS]       the JavaScript values a form tree is made of;
    - [Utils]    path utilities, structural equality and schema unwrapping;
    - [Store]    the same path utilities on objects held by reference;
    - [Zod]      what a parse of the schema resolves to;
    - [Dom]      native controls and the store they live in;
    - [UseForm]  the hook: its state, its callbacks and the effect;
    - [Reading]  what a table and a run of actions amount to;
    - [Demo]     a small form to run the hook on;
    - the theorems, one group per property. *)

From Stdlib Require Import String Ascii List ZArith Bool Arith Lia.
From Stdlib Require Import DecimalString DecimalNat DecimalFacts.
Import ListNotations.

Set Warnings "-register-all".

Local Open Scope string_scope.
Local Open Scope list_scope.

(* ===================================================================== *)
(** ** JavaScript values *)
(* ===================================================================== *)

Module JS.

(** A form tree: primitives, records (objects, in insertion order) and
    sequences (arrays).  Numbers are kept to the integers: the hook only
    ever compares and prints them. *)
Inductive JSValue : Type :=
| VUndef
| VNull
| VBool (b : bool)
| VNum (n : Z)
| VStr (s : string)
| VObj (fields : list (string * JSValue))
| VArr (items : list JSValue).

(** The induction principle that reaches below records and sequences. *)
Section ValueInd.
Variable P : JSValue -> Prop.
Hypothesis Hundef : P VUndef.
Hypothesis Hnull : P VNull.
Hypothesis Hbool : forall b, P (VBool b).
Hypothesis Hnum : forall n, P (VNum n).
Hypothesis Hstr : forall s, P (VStr s).
Hypothesis Hobj : forall fs, Forall (fun kv => P (snd kv)) fs -> P (VObj fs).
Hypothesis Harr : forall xs, Forall P xs -> P (VArr xs).

Fixpoint JSValue_nested_ind (v : JSValue) : P v :=
  match v with
  | VUndef => Hundef
  | VNull => Hnull
  | VBool b => Hbool b
  | VNum n => Hnum n
  | VStr s => Hstr s
  | VObj fs =>
      Hobj fs
        ((fix go (l : list (string * JSValue)) : Forall (fun kv => P (snd kv)) l :=
            match l with
            | [] => Forall_nil _
            | kv :: l' => Forall_cons kv (JSValue_nested_ind (snd kv)) (go l')
            end) fs)
  | VArr xs =>
      Harr xs
        ((fix go (l : list JSValue) : Forall P l :=
            match l with
            | [] => Forall_nil _
            | x :: l' => Forall_cons x (JSValue_nested_ind x) (go l')
            end) xs)
  end.
End ValueInd.

(** Objects used as maps from strings.  The list is in the order in
    which the object is enumerated, which is the order of insertion for
    keys that are not array indices. *)
Section Objects.
Context {A : Type}.

(** [o[k]]: the value stored under [k], if any. *)
Fixpoint lookup (k : string) (o : list (string * A)) : option A :=
  match o with
  | [] => None
  | (k', v) :: rest => if k' =? k then Some v else lookup k rest
  end.

(** [o[k] = v]: an existing key keeps its place, a new key goes last. *)
Fixpoint assign (o : list (string * A)) (k : string) (v : A) : list (string * A) :=
  match o with
  | [] => [(k, v)]
  | (k', w) :: rest =>
      if k' =? k then (k', v) :: rest else (k', w) :: assign rest k v
  end.

(** [delete o[k]]. *)
Fixpoint delete (o : list (string * A)) (k : string) : list (string * A) :=
  match o with
  | [] => []
  | (k', w) :: rest =>
      if k' =? k then delete rest k else (k', w) :: delete rest k
  end.

(** [Object.keys(o)] and [Object.values(o)]. *)
Definition keys (o : list (string * A)) : list string := map fst o.
Definition values (o : list (string * A)) : list A := map snd o.

Definition has_key (k : string) (o : list (string * A)) : bool :=
  existsb (String.eqb k) (keys o).
End Objects.

(** [Boolean(v)]: every value is truthy except [undefined], [null],
    [false], [0] and the empty string. *)
Definition JSBoolean (v : JSValue) : bool :=
  match v with
  | VUndef | VNull => false
  | VBool b => b
  | VNum n => negb (n =? 0)%Z
  | VStr s => negb (s =? "")
  | VObj _ | VArr _ => true
  end.

(** [a ?? b]: [b] when [a] is [undefined] or [null]. *)
Definition nullish (a b : JSValue) : JSValue :=
  match a with
  | VUndef | VNull => b
  | _ => a
  end.

Definition string_of_Z (n : Z) : string := NilZero.string_of_int (Z.to_int n).
Definition string_of_nat (n : nat) : string := NilZero.string_of_uint (Nat.to_uint n).

(** [xs.join(sep)] on strings. *)
Fixpoint join (sep : string) (xs : list string) : string :=
  match xs with
  | [] => ""
  | [x] => x
  | x :: rest => x ++ sep ++ join sep rest
  end.

(** [String(v)].  An array prints its elements separated by commas, with
    [undefined] and [null] elements printed as nothing. *)
Fixpoint JSString (v : JSValue) : string :=
  match v with
  | VUndef => "undefined"
  | VNull => "null"
  | VBool true => "true"
  | VBool false => "false"
  | VNum n => string_of_Z n
  | VStr s => s
  | VObj _ => "[object Object]"
  | VArr xs =>
      join ","
        ((fix elems (l : list JSValue) : list string :=
            match l with
            | [] => []
            | x :: l' =>
                match x with
                | VUndef | VNull => ""
                | _ => JSString x
                end :: elems l'
            end) xs)
  end.

(** [s.toLowerCase()], on the ASCII letters. *)
Definition lower_ascii (c : ascii) : ascii :=
  let n := nat_of_ascii c in
  if ((65 <=? n)%nat && (n <=? 90)%nat)%bool then ascii_of_nat (n + 32) else c.

Fixpoint toLowerCase (s : string) : string :=
  match s with
  | EmptyString => EmptyString
  | String c rest => String (lower_ascii c) (toLowerCase rest)
  end.

(** [s === v] for a string [s]: [v] has to be that very string. *)
Definition strict_eq_string (s : string) (v : JSValue) : bool :=
  match v with
  | VStr s' => s =? s'
  | _ => false
  end.

(** A leaf holds no further values. *)
Definition is_leaf (v : JSValue) : bool :=
  match v with
  | VObj _ | VArr _ => false
  | _ => true
  end.

End JS.
Export JS.

(* ===================================================================== *)
(** ** Path utilities, structural equality, schema unwrapping *)
(* ===================================================================== *)

Module Utils.

(** Modelled from the spec: the type [PathSegment] of [src/lib/utils],
    which is not part of the sources at hand.  A segment is a key together
    with the flag that says whether it addresses an array element:
    [Index i] is the segment with the flag set and the numeric key [i],
    [Key k] the segment with the flag unset and the string key [k]. *)
Inductive PathSegment : Type :=
| Key (k : string)
| Index (i : nat).

(** [p.key], as the string that [join] makes of it. *)
Definition key (p : PathSegment) : string :=
  match p with
  | Key k => k
  | Index i => string_of_nat i
  end.

(** The index that a key names in a sequence: the key has to be the
    decimal numeral of the index ([arr["1"]] is [arr[1]], [arr["01"]] is
    not). *)
Definition index_of (k : string) : option nat :=
  match NilZero.uint_of_string k with
  | Some d =>
      let i := Nat.of_uint d in
      if string_of_nat i =? k then Some i else None
  | None => None
  end.

Arguments index_of : simpl never.

(** Containers, whatever they hold: the nodes of a tree hold values, the
    objects of a store hold slots.  [undef] is what an absent child reads
    as. *)
Section Containers.
Context {A : Type}.
Variable undef : A.

Inductive Container : Type :=
| Fields (fields : list (string * A))
| Items (items : list A).

(** A copy of the sequence with [v] at index [i]; a sequence that is too
    short is extended, and the slots in between read as [undefined]. *)
Fixpoint array_set (xs : list A) (i : nat) (v : A) : list A :=
  match i, xs with
  | O, [] => [v]
  | O, _ :: rest => v :: rest
  | S j, [] => undef :: array_set [] j v
  | S j, x :: rest => x :: array_set rest j v
  end.

(** The elements of a sequence under their indices, as the fields of a
    record. *)
Fixpoint indexed_from (i : nat) (xs : list A) : list (string * A) :=
  match xs with
  | [] => []
  | x :: rest => (string_of_nat i, x) :: indexed_from (S i) rest
  end.

(** The child that a segment names in a container (none, when there is
    no container): the field under the key in a record, the item at the
    index that the key names in a sequence, [undef] when absent. *)
Definition child_of (c : option Container) (p : PathSegment) : A :=
  match c with
  | Some (Fields fs) =>
      match lookup (key p) fs with
      | Some v => v
      | None => undef
      end
  | Some (Items xs) =>
      match index_of (key p) with
      | Some i => nth i xs undef
      | None => undef
      end
  | None => undef
  end.

(** A copy of the container with the child at [p] set to [x]; every
    other child is kept.  A sequence given a key that names no index is
    copied as the record of its items with the key added.  Where there
    is no container, an empty one is created, a sequence for an array
    segment and a record otherwise. *)
Definition with_child_of (c : option Container) (p : PathSegment) (x : A)
  : Container :=
  match c with
  | Some (Fields fs) => Fields (assign fs (key p) x)
  | Some (Items xs) =>
      match index_of (key p) with
      | Some i => Items (array_set xs i x)
      | None => Fields (assign (indexed_from 0 xs) (key p) x)
      end
  | None =>
      match p with
      | Key k => Fields [(k, x)]
      | Index i => Items (array_set [] i x)
      end
  end.


End Containers.

(** A tree as a container of trees, and back. *)
Definition container (t : JSValue) : option (Container (A := JSValue)) :=
  match t with
  | VObj fs => Some (Fields fs)
  | VArr xs => Some (Items xs)
  | _ => None
  end.

Definition value_of (c : Container (A := JSValue)) : JSValue :=
  match c with
  | Fields fs => VObj fs
  | Items xs => VArr xs
  end.

(** The node one segment below [t]; [undefined] when [t] has no such
    child or is no container. *)
Definition child (t : JSValue) (p : PathSegment) : JSValue :=
  child_of VUndef (container t) p.

(** A copy of [t] whose child at [p] is [c]: the container that [t] is,
    copied, or a new one where [t] is none. *)
Definition with_child (t : JSValue) (p : PathSegment) (c : JSValue) : JSValue :=
  value_of (with_child_of VUndef (container t) p c).

(** Modelled from the spec: [getDeepProp] of [src/lib/utils] (spec 4.1,
    [get]).  Walks the path from the root and yields [undefined] as soon
    as a segment is absent. *)
Fixpoint getDeepProp (t : JSValue) (path : list PathSegment) : JSValue :=
  match path with
  | [] => t
  | p :: rest => getDeepProp (child t p) rest
  end.

(** Modelled from the spec: [setDeepProp] of [src/lib/utils] (spec 4.1,
    [set]).  The empty path replaces the whole tree; otherwise the
    containers along the path are copied (or created when absent) and
    everything off the path is kept. *)
Fixpoint setDeepProp (t : JSValue) (path : list PathSegment) (v : JSValue) : JSValue :=
  match path with
  | [] => v
  | p :: rest => with_child t p (setDeepProp (child t p) rest v)
  end.


(** Identical key sets, whatever the order. *)
Definition same_keys (fa fb : list (string * JSValue)) : bool :=
  forallb (fun k => has_key k fb) (keys fa) &&
  forallb (fun k => has_key k fa) (keys fb).

(** Modelled from the spec: [deepEqual] of [src/lib/utils] (spec 4.2).
    Primitives are equal by value; records when their key sets are
    identical and the values under each key are equal; sequences when
    they have the same length and equal elements in order; any mismatch
    of kinds is unequal. *)
Fixpoint deepEqual (a b : JSValue) : bool :=
  match a, b with
  | VUndef, VUndef => true
  | VNull, VNull => true
  | VBool x, VBool y => Bool.eqb x y
  | VNum x, VNum y => (x =? y)%Z
  | VStr x, VStr y => x =? y
  | VObj fa, VObj fb =>
      same_keys fa fb &&
      (fix each (l : list (string * JSValue)) : bool :=
         match l with
         | [] => true
         | (k, v) :: l' =>
             match lookup k fb with
             | Some w => deepEqual v w
             | None => false
             end && each l'
         end) fa
  | VArr xa, VArr xb =>
      (fix pairwise (l m : list JSValue) : bool :=
         match l, m with
         | [], [] => true
         | x :: l', y :: m' => deepEqual x y && pairwise l' m'
         | _, _ => false
         end) xa xb
  | _, _ => false
  end.

(** The two loops of [deepEqual], on their own. *)
Definition equal_fields (eq : JSValue -> JSValue -> bool)
  (fa fb : list (string * JSValue)) : bool :=
  forallb (fun kv =>
             match lookup (fst kv) fb with
             | Some w => eq (snd kv) w
             | None => false
             end) fa.

Fixpoint equal_items (eq : JSValue -> JSValue -> bool) (l m : list JSValue) : bool :=
  match l, m with
  | [], [] => true
  | x :: l', y :: m' => eq x y && equal_items eq l' m'
  | _, _ => false
  end.

(** No record lists a key twice (the trees that JavaScript objects are). *)
Fixpoint nodupb (ks : list string) : bool :=
  match ks with
  | [] => true
  | k :: rest => negb (existsb (String.eqb k) rest) && nodupb rest
  end.

Fixpoint well_formed (v : JSValue) : bool :=
  match v with
  | VObj fs =>
      nodupb (keys fs) &&
      (fix each (l : list (string * JSValue)) : bool :=
         match l with
         | [] => true
         | (_, w) :: l' => well_formed w && each l'
         end) fs
  | VArr xs =>
      (fix each (l : list JSValue) : bool :=
         match l with
         | [] => true
         | x :: l' => well_formed x && each l'
         end) xs
  | _ => true
  end.

(** Modelled from the spec: the schema nodes of zod that the hook looks
    at (spec 4.3 and 9): leaf kinds, composite kinds, and the modifier
    wrappers around an inner node. *)
Inductive ZodType : Type :=
| ZodString
| ZodNumber
| ZodBoolean
| ZodOther (typeName : string)
| ZodObject (shape : list (string * ZodType))
| ZodArray (element : ZodType)
| ZodOptional (inner : ZodType)
| ZodNullable (inner : ZodType)
| ZodDefault (inner : ZodType)
| ZodEffects (inner : ZodType).

(** Modelled from the spec: [unwrapZodType] of [src/lib/utils] (spec 4.3,
    [unwrap]).  Follows optional, default, nullable and effect wrappers
    down to the innermost concrete kind. *)
Fixpoint unwrapZodType (t : ZodType) : ZodType :=
  match t with
  | ZodOptional inner => unwrapZodType inner
  | ZodNullable inner => unwrapZodType inner
  | ZodDefault inner => unwrapZodType inner
  | ZodEffects inner => unwrapZodType inner
  | _ => t
  end.

(** [t instanceof z.ZodString]. *)
Definition isZodString (t : ZodType) : bool :=
  match t with
  | ZodString => true
  | _ => false
  end.

End Utils.
Export Utils.

(* ===================================================================== *)
(** ** Trees in the store *)
(* ===================================================================== *)

(** Objects and arrays are held by reference.  To say what a call leaves
    of the objects it was given, the trees are also laid out in a store
    of objects, and the path utilities are followed there. *)
Module Store.











End Store.
Export Store.

(* ===================================================================== *)
(** ** zod's parse results *)
(* ===================================================================== *)

Module Zod.

Record ZodIssue : Type := {
  issuePath : list PathSegment;
  message : string
}.

(** A [ZodError]: the issues of one failed parse, each with its path. *)
Definition ZodError : Type := list ZodIssue.

(** What [schema.safeParseAsync] resolves to. *)
Inductive SafeParseReturnType : Type :=
| SafeParseSuccess (data : JSValue)
| SafeParseError (error : ZodError).

Definition success (r : SafeParseReturnType) : bool :=
  match r with
  | SafeParseSuccess _ => true
  | SafeParseError _ => false
  end.

(** The errors that a parse result leaves behind, and the value that is
    handed on. *)
Definition errorsOf (r : SafeParseReturnType) : option ZodError :=
  match r with
  | SafeParseSuccess _ => None
  | SafeParseError error => Some error
  end.

Definition returned (r : SafeParseReturnType) : JSValue :=
  match r with
  | SafeParseSuccess data => data
  | SafeParseError _ => VUndef
  end.

End Zod.
Export Zod.

(* ===================================================================== *)
(** ** Native controls *)
(* ===================================================================== *)

Module Dom.

(** What the hook reads and writes of an input, textarea or select. *)
Record Element : Type := {
  type : option string;
  value : string;
  checked : bool
}.

Definition set_checked (b : bool) (el : Element) : Element :=
  {| type := type el; value := value el; checked := b |}.

Definition set_value (s : string) (el : Element) : Element :=
  {| type := type el; value := s; checked := checked el |}.

(** Controls are objects: the registration table and the page share
    them by reference.  [Ref] is the identity of a control, [Document]
    the controls behind the identities. *)
Definition Ref : Type := nat.
Definition Document : Type := Ref -> Element.

Definition write (r : Ref) (el : Element) (d : Document) : Document :=
  fun r' => if Nat.eqb r' r then el else d r'.

(** Modelled from the spec: [isRadio] of [src/lib/utils]; a radio
    control is a control whose type is radio. *)
Definition isRadio (el : Element) : bool :=
  match type el with
  | Some t => t =? "radio"
  | None => false
  end.

(** Modelled from the spec: [isCheckbox] of [src/lib/utils]; a checkbox
    control is a control whose type is checkbox. *)
Definition isCheckbox (el : Element) : bool :=
  match type el with
  | Some t => t =? "checkbox"
  | None => false
  end.

(** The event of a form submission, with the two flags its methods set. *)
Record FormEvent : Type := {
  defaultPrevented : bool;
  propagationStopped : bool
}.

Definition preventDefault (e : FormEvent) : FormEvent :=
  {| defaultPrevented := true; propagationStopped := propagationStopped e |}.

Definition stopPropagation (e : FormEvent) : FormEvent :=
  {| defaultPrevented := defaultPrevented e; propagationStopped := true |}.

(** A change event carries the control it fired on. *)
Record ChangeEvent : Type := {
  currentTarget : Element
}.

End Dom.
Export Dom.

(* ===================================================================== *)
(** ** The hook *)
(* ===================================================================== *)

Module UseForm.

(** The configuration of [useForm].  The schema is used through its
    parser; [initialValues] is [undefined] when the caller leaves it out. *)
Record UseFormOptions : Type := {
  safeParseAsync : JSValue -> SafeParseReturnType;
  initialValues : JSValue
}.

(** A parameter with a default: the default is taken when the argument is
    [undefined]. *)
Definition orDefault (dflt arg : JSValue) : JSValue :=
  match arg with
  | VUndef => dflt
  | _ => arg
  end.

(** An entry of the registration table. *)
Record FieldRef : Type := {
  path : list PathSegment;
  ref : Ref
}.

Section Hook.

(** Whatever the submit handler acts on. *)
Context {App : Type}.

(** How a call of the submit handler ends: it returns, or it throws;
    either way it may have acted on the application. *)
Inductive Outcome : Type :=
| Returns (a : App)
| Throws (a : App).

Definition SubmitHandler : Type := JSValue -> App -> Outcome.

(** The state of one mounted form: the hook's state cells and its
    [fieldRefs] table, together with what the hook acts on from outside:
    the controls of the page, the calls made to the schema's parser (in
    order) and the application behind the submit handler. *)
Record World : Type := {
  formValue : JSValue;
  formErrors : option ZodError;
  fieldRefs : list (string * FieldRef);
  validateOnChange : bool;
  internalInitialValues : JSValue;
  document : Document;
  parseCalls : list JSValue;
  app : App
}.

(** Callbacks run in a state monad over [World]. *)
Definition M (A : Type) : Type := World -> A * World.

Definition ret {A : Type} (a : A) : M A := fun w => (a, w).

Definition bind {A B : Type} (c : M A) (k : A -> M B) : M B :=
  fun w => let (a, w') := c w in k a w'.

Definition gets {A : Type} (f : World -> A) : M A := fun w => (f w, w).

Definition modify (f : World -> World) : M unit := fun w => (tt, f w).

Definition exec {A : Type} (c : M A) (w : World) : World := snd (c w).

Notation "x <- c ;; k" := (bind c (fun x => k))
  (at level 61, c at next level, right associativity).
Notation "c ;; k" := (bind c (fun _ => k))
  (at level 61, right associativity).

(** The state setters. *)
Definition setFormValue (f : JSValue -> JSValue) : M unit :=
  modify (fun w =>
    {| formValue := f (formValue w); formErrors := formErrors w;
       fieldRefs := fieldRefs w; validateOnChange := validateOnChange w;
       internalInitialValues := internalInitialValues w;
       document := document w; parseCalls := parseCalls w; app := app w |}).

Definition setFormErrors (e : option ZodError) : M unit :=
  modify (fun w =>
    {| formValue := formValue w; formErrors := e;
       fieldRefs := fieldRefs w; validateOnChange := validateOnChange w;
       internalInitialValues := internalInitialValues w;
       document := document w; parseCalls := parseCalls w; app := app w |}).

Definition setValidateOnChange (b : bool) : M unit :=
  modify (fun w =>
    {| formValue := formValue w; formErrors := formErrors w;
       fieldRefs := fieldRefs w; validateOnChange := b;
       internalInitialValues := internalInitialValues w;
       document := document w; parseCalls := parseCalls w; app := app w |}).

Definition setInternalInitialValues (v : JSValue) : M unit :=
  modify (fun w =>
    {| formValue := formValue w; formErrors := formErrors w;
       fieldRefs := fieldRefs w; validateOnChange := validateOnChange w;
       internalInitialValues := v;
       document := document w; parseCalls := parseCalls w; app := app w |}).

(** Writes to [fieldRefs.current] and to the controls. *)
Definition setFieldRefs (f : list (string * FieldRef) -> list (string * FieldRef))
  : M unit :=
  modify (fun w =>
    {| formValue := formValue w; formErrors := formErrors w;
       fieldRefs := f (fieldRefs w); validateOnChange := validateOnChange w;
       internalInitialValues := internalInitialValues w;
       document := document w; parseCalls := parseCalls w; app := app w |}).

Definition setElement (r : Ref) (f : Element -> Element) : M unit :=
  modify (fun w =>
    {| formValue := formValue w; formErrors := formErrors w;
       fieldRefs := fieldRefs w; validateOnChange := validateOnChange w;
       internalInitialValues := internalInitialValues w;
       document := write r (f (document w r)) (document w);
       parseCalls := parseCalls w; app := app w |}).

(** A call of the submit handler; the result says whether it threw. *)
Definition call (handler : SubmitHandler) (values : JSValue) : M bool :=
  fun w =>
    let after a :=
      {| formValue := formValue w; formErrors := formErrors w;
         fieldRefs := fieldRefs w; validateOnChange := validateOnChange w;
         internalInitialValues := internalInitialValues w;
         document := document w; parseCalls := parseCalls w;
         app := a |} in
    match handler values (app w) with
    | Returns a => (false, after a)
    | Throws a => (true, after a)
    end.

(** [xs.forEach(f)]. *)
Fixpoint forEach {A : Type} (xs : list A) (f : A -> M unit) : M unit :=
  match xs with
  | [] => ret tt
  | x :: rest => f x ;; forEach rest f
  end.

Variable options : UseFormOptions.

(** [await schema.safeParseAsync(v)]: the call is recorded.  The await
    is one step: the result is there before anything else happens to the
    form. *)
Definition schema_safeParseAsync (v : JSValue) : M SafeParseReturnType :=
  fun w =>
    (safeParseAsync options v,
     {| formValue := formValue w; formErrors := formErrors w;
        fieldRefs := fieldRefs w; validateOnChange := validateOnChange w;
        internalInitialValues := internalInitialValues w;
        document := document w; parseCalls := parseCalls w ++ [v];
        app := app w |}).

(** The [initialValues] of the options, [{}] by default. *)
Definition initialValues_ : JSValue := orDefault (VObj []) (initialValues options).

(** The state at the first render ([structuredClone] copies the value). *)
Definition initial (d : Document) (a : App) : World :=
  {| formValue := initialValues_;
     formErrors := None;
     fieldRefs := [];
     validateOnChange := false;
     internalInitialValues := initialValues_;
     document := d;
     parseCalls := [];
     app := a |}.

Definition isDirty (w : World) : bool :=
  negb (deepEqual (formValue w) (internalInitialValues w)).

Definition reset (values : JSValue) : M unit :=
  let values := orDefault initialValues_ values in
  setInternalInitialValues values ;;
  setFormValue (fun _ => values).

(** Validate by parsing the form data with the schema; the parsed data
    when valid, [undefined] otherwise. *)
Definition validate : M JSValue :=
  formValue <- gets formValue ;;
  parsed <- schema_safeParseAsync formValue ;;
  match parsed with
  | SafeParseSuccess data =>
      setFormErrors None ;;
      ret data
  | SafeParseError error =>
      setFormErrors (Some error) ;;
      ret VUndef
  end.

(** What a turn of the loop over the registered fields makes of a
    control, given the value of the tree at the field's path. *)
Definition shown (value_ : JSValue) (el : Element) : Element :=
  if isRadio el then set_checked (strict_eq_string (value el) value_) el
  else if isCheckbox el then set_checked (JSBoolean value_) el
  else set_value (JSString (nullish value_ (VStr ""))) el.

(** One turn of the loop over the registered fields. *)
Definition setRegisteredField (formValue : JSValue) (f : FieldRef) : M unit :=
  let value_ := getDeepProp formValue (path f) in
  el <- gets (fun w => document w (ref f)) ;;
  if isRadio el then
    if strict_eq_string (value el) value_
    then setElement (ref f) (set_checked true)
    else setElement (ref f) (set_checked false)
  else if isCheckbox el then
    setElement (ref f) (set_checked (JSBoolean value_))
  else
    setElement (ref f) (set_value (JSString (nullish value_ (VStr "")))).

(** The effect that watches for changes in value. *)
Definition watch : M unit :=
  validateOnChange <- gets validateOnChange ;;
  (if validateOnChange : bool then validate ;; ret tt else ret tt) ;;
  refs <- gets fieldRefs ;;
  formValue <- gets formValue ;;
  forEach (values refs) (setRegisteredField formValue).

(** The submit handler.  When the handler throws, the function ends
    there and what follows the call is not run. *)
Definition handleSubmit (handler : SubmitHandler) (e : FormEvent) : M FormEvent :=
  let e := preventDefault e in
  let e := stopPropagation e in
  values <- validate ;;
  thrown <- (if JSBoolean values then call handler values else ret false) ;;
  if thrown : bool then ret e
  else
    setValidateOnChange true ;;
    ret e.

(** The handler returns when called with these values on this
    application. *)
Definition returnsAt (handler : SubmitHandler) (values : JSValue) (a : App) : bool :=
  match handler values a with
  | Returns _ => true
  | Throws _ => false
  end.

(** A submit on [w] runs to its end: the handler is not called, or it
    returns. *)
Definition runsToEnd (handler : SubmitHandler) (w : World) : bool :=
  let values := returned (safeParseAsync options (formValue w)) in
  if JSBoolean values then returnsAt handler values (app w) else true.

(** What [register] hands to a native element. *)
Record Registration : Type := {
  onChange : ChangeEvent -> M unit;
  name : string;
  refCallback : option Ref -> M unit
}.

Definition isCheckboxType (t : option string) : bool :=
  match t with
  | Some s => toLowerCase s =? "checkbox"
  | None => false
  end.

(** Register for native elements (input, textarea, select). *)
Definition register (path : list PathSegment) (fieldSchema : ZodType) : Registration :=
  let name := join "." (map key path) in
  let unwrapped := unwrapZodType fieldSchema in
  {| onChange := fun e =>
       let newValue := VStr (value (currentTarget e)) in
       let newValue :=
         if negb (isZodString unwrapped) && strict_eq_string "" newValue
         then VUndef else newValue in
       let newValue :=
         if isCheckboxType (type (currentTarget e))
         then VBool (checked (currentTarget e)) else newValue in
       setFormValue (fun v => setDeepProp v path newValue);
     name := name;
     refCallback := fun ref =>
       match ref with
       | Some ref =>
           el <- gets (fun w => document w ref) ;;
           let refIndex := if isRadio el then (name ++ "." ++ value el)%string else name in
           setFieldRefs (fun t => assign t refIndex {| UseForm.path := path; UseForm.ref := ref |})
       | None =>
           setFieldRefs (fun t => delete t name)
       end |}.

(** What happens to a mounted form.  The effect runs after the commit of
    a render in which the form value, the flag or [validate] changed:
    after a change of value, after a reset, and after a submit that
    turns the flag on; a ref callback only writes to the table.  (Object
    identity is not modelled: a reset to the very object the form holds
    would commit nothing, and is taken here to run the effect too.) *)
Inductive Action : Type :=
| Submit (handler : SubmitHandler) (e : FormEvent)
| Reset (values : JSValue)
| Change (path : list PathSegment) (fieldSchema : ZodType) (e : ChangeEvent)
| Attach (path : list PathSegment) (fieldSchema : ZodType) (r : option Ref).

Definition isSubmit (a : Action) : bool :=
  match a with
  | Submit _ _ => true
  | _ => false
  end.

Definition dispatch (a : Action) : M unit :=
  match a with
  | Submit handler e =>
      before <- gets validateOnChange ;;
      handleSubmit handler e ;;
      after <- gets validateOnChange ;;
      if negb before && after then watch else ret tt
  | Reset values => reset values ;; watch
  | Change path fieldSchema e => onChange (register path fieldSchema) e ;; watch
  | Attach path fieldSchema r => refCallback (register path fieldSchema) r
  end.

(** A mounted form after a run of actions; the effect has run once at
    mount. *)
Definition mount (d : Document) (a : App) : World := exec watch (initial d a).

Definition run (actions : list Action) (w : World) : World :=
  fold_left (fun w a => exec (dispatch a) w) actions w.

(** The action is a submit that runs to its end on [w]. *)
Definition completes (a : Action) (w : World) : bool :=
  match a with
  | Submit handler _ => runsToEnd handler w
  | _ => false
  end.

(** The handler of a submit returns whatever it is given. *)
Definition alwaysReturns (a : Action) : Prop :=
  match a with
  | Submit handler _ => forall values x, returnsAt handler values x = true
  | _ => True
  end.

End Hook.

End UseForm.
Export UseForm.

(* ===================================================================== *)
(** ** Reading a table and a run *)
(* ===================================================================== *)

Module Reading.

(** The last entry, in the order of the loop, that names the control
    [r]. *)
Fixpoint lastFor (r : Ref) (fs : list FieldRef) : option FieldRef :=
  match fs with
  | [] => None
  | f :: rest =>
      match lastFor r rest with
      | Some g => Some g
      | None => if Nat.eqb (ref f) r then Some f else None
      end
  end.


End Reading.
Export Reading.

(* ===================================================================== *)
(** ** A small form *)
(* ===================================================================== *)

(** A form with a required [name], a radio group [choice] with the
    options a and b, and a checkbox [agree]; the submit handler keeps
    what it is given. *)
Module Demo.

Definition nameRequired : ZodError :=
  [{| issuePath := [Key "name"]; message := "This field is required" |}].

Definition parse (v : JSValue) : SafeParseReturnType :=
  match v with
  | VObj fs =>
      match lookup "name" fs with
      | Some (VStr s) => if s =? "" then SafeParseError nameRequired else SafeParseSuccess v
      | _ => SafeParseError nameRequired
      end
  | _ => SafeParseError [{| issuePath := []; message := "Expected object" |}]
  end.

Definition options : UseFormOptions :=
  {| safeParseAsync := parse; initialValues := VUndef |}.

Definition optionsWith (v : JSValue) : UseFormOptions :=
  {| safeParseAsync := parse; initialValues := v |}.

Definition textInput : Element :=
  {| type := Some "text"; value := "draft"; checked := false |}.

Definition radio (option : string) : Element :=
  {| type := Some "radio"; value := option; checked := false |}.

Definition checkbox : Element :=
  {| type := Some "checkbox"; value := "on"; checked := false |}.

(** The page: control 0 is the text input, 1 and 2 the radio options,
    3 the checkbox. *)
Definition page : Document :=
  fun r =>
    match r with
    | 1 => radio "a"
    | 2 => radio "b"
    | 3 => checkbox
    | _ => textInput
    end.

Definition keep : @SubmitHandler (list JSValue) :=
  fun values seen => Returns (seen ++ [values]).

(** A handler that throws. *)
Definition refuse : @SubmitHandler (list JSValue) :=
  fun values seen => Throws seen.

Definition typed (s : string) : ChangeEvent :=
  {| currentTarget := {| type := Some "text"; value := s; checked := false |} |}.

Definition submitEvent : FormEvent :=
  {| defaultPrevented := false; propagationStopped := false |}.




(** The form right after mount, nothing registered, nothing kept. *)
Definition fresh : @World (list JSValue) := mount options page [].

(** The same form with its four controls registered. *)
Definition registered : @World (list JSValue) :=
  run options
      [Attach [Key "name"] ZodString (Some 0);
       Attach [Key "choice"] ZodString (Some 1);
       Attach [Key "choice"] ZodString (Some 2);
       Attach [Key "agree"] ZodBoolean (Some 3)]
      fresh.

End Demo.

(* ===================================================================== *)
(** ** Objects and sequences *)
(* ===================================================================== *)

Section ObjectFacts.
Context {A : Type}.
Implicit Types (o : list (string * A)) (k : string) (v : A).

Lemma lookup_assign_eq o k v : lookup k (assign o k v) = Some v.
Proof.
  induction o as [|[k' w] o IH]; simpl.
  - now rewrite String.eqb_refl.
  - destruct (k' =? k) eqn:E; simpl; now rewrite E.
Qed.

Lemma lookup_assign_ne o k k' v :
  k <> k' -> lookup k' (assign o k v) = lookup k' o.
Proof.
  intros Hne. induction o as [|[k0 w] o IH]; simpl.
  - destruct (k =? k') eqn:E; [apply String.eqb_eq in E; contradiction | reflexivity].
  - destruct (k0 =? k) eqn:E; simpl.
    + apply String.eqb_eq in E. subst k0.
      destruct (k =? k') eqn:E'; [apply String.eqb_eq in E'; contradiction | reflexivity].
    + now rewrite IH.
Qed.

Lemma lookup_delete_eq o k : lookup k (delete o k) = None.
Proof.
  induction o as [|[k' w] o IH]; simpl; [reflexivity|].
  destruct (k' =? k) eqn:E; simpl; [assumption | now rewrite E].
Qed.

Lemma lookup_delete_ne o k k' :
  k <> k' -> lookup k' (delete o k) = lookup k' o.
Proof.
  intros Hne. induction o as [|[k0 w] o IH]; simpl; [reflexivity|].
  destruct (k0 =? k) eqn:E; simpl.
  - apply String.eqb_eq in E. subst k0.
    destruct (k =? k') eqn:E'; [apply String.eqb_eq in E'; contradiction | assumption].
  - now rewrite IH.
Qed.

Lemma has_key_lookup o k : has_key k o = true <-> lookup k o <> None.
Proof.
  unfold has_key, keys. induction o as [|[k' w] o IH]; simpl.
  - split; [discriminate | intros H; now contradiction H].
  - rewrite (String.eqb_sym k k'). destruct (k' =? k); simpl.
    + split; [discriminate | reflexivity].
    + exact IH.
Qed.

Lemma lookup_In o k v : lookup k o = Some v -> In (k, v) o.
Proof.
  induction o as [|[k' w] o IH]; simpl; [discriminate|].
  destruct (k' =? k) eqn:E.
  - intros [= ->]. apply String.eqb_eq in E. subst. now left.
  - intros H. right. now apply IH.
Qed.

End ObjectFacts.

Section MoreObjectFacts.
Context {A : Type}.
Implicit Types (o : list (string * A)) (k : string) (v : A).




End MoreObjectFacts.

(** *** Keys that name an index *)

Lemma to_uint_nonnil n : Nat.to_uint n <> Decimal.Nil.
Proof.
  rewrite <- (DecimalNat.Unsigned.of_to n) at 1.
  rewrite DecimalNat.Unsigned.to_of. apply DecimalFacts.unorm_nonnil.
Qed.

Lemma index_of_string_of_nat n : index_of (string_of_nat n) = Some n.
Proof.
  unfold index_of, string_of_nat.
  rewrite NilZero.usu by apply to_uint_nonnil.
  rewrite DecimalNat.Unsigned.of_to. now rewrite String.eqb_refl.
Qed.



(** *** Containers *)

Section ContainerFacts.
Context {A : Type}.
Variable undef : A.
Implicit Types (xs : list A) (c : option (Container (A := A))).

Lemma nth_array_set_eq xs i v : nth i (array_set undef xs i v) undef = v.
Proof.
  revert xs. induction i as [|i IH]; intros [|x xs]; simpl; auto.
Qed.







Lemma child_of_with_child_eq c p x :
  child_of undef (Some (with_child_of undef c p x)) p = x.
Proof.
  destruct c as [[fs|xs]|]; simpl.
  - now rewrite lookup_assign_eq.
  - destruct (index_of (key p)) as [i|] eqn:Hp; simpl.
    + apply nth_array_set_eq.
    + now rewrite lookup_assign_eq.
  - destruct p as [k|i]; simpl.
    + now rewrite String.eqb_refl.
    + rewrite index_of_string_of_nat. apply nth_array_set_eq.
Qed.




End ContainerFacts.

(* ===================================================================== *)
(** ** get and set along a path *)
(* ===================================================================== *)

Lemma container_value_of c : container (value_of c) = Some c.
Proof. now destruct c. Qed.


Lemma child_with_child_eq t p c : child (with_child t p c) p = c.
Proof.
  unfold child, with_child. rewrite container_value_of.
  apply child_of_with_child_eq.
Qed.




Lemma getDeepProp_app t R Q :
  getDeepProp t (R ++ Q) = getDeepProp (getDeepProp t R) Q.
Proof.
  revert t. induction R as [|r R IH]; intros t; simpl; [reflexivity | apply IH].
Qed.

Lemma get_set_same t P v : getDeepProp (setDeepProp t P v) P = v.
Proof.
  revert t. induction P as [|p P IH]; intros t; simpl; [reflexivity|].
  rewrite child_with_child_eq. apply IH.
Qed.




(* ===================================================================== *)
(** ** get and set in the store *)
(* ===================================================================== *)

(** *** Related containers have related children *)

Section Related.
Context {A B : Type}.
Variable R : A -> B -> Prop.
Variables (undefA : A) (undefB : B).
Hypothesis Rundef : R undefA undefB.





Lemma related_length xa xb : Forall2 R xa xb -> length xa = length xb.
Proof. induction 1; simpl; congruence. Qed.




End Related.



(** *** Trees held in the store *)













(* ===================================================================== *)
(** ** Structural equality *)
(* ===================================================================== *)

Lemma deepEqual_VObj fa fb :
  deepEqual (VObj fa) (VObj fb) = same_keys fa fb && equal_fields deepEqual fa fb.
Proof.
  simpl. f_equal. unfold equal_fields.
  induction fa as [|[k v] fa IH]; simpl; [reflexivity | now rewrite IH].
Qed.

Lemma deepEqual_VArr xa xb :
  deepEqual (VArr xa) (VArr xb) = equal_items deepEqual xa xb.
Proof.
  simpl. revert xb.
  induction xa as [|x xa IH]; intros [|y xb]; simpl; try reflexivity.
  now rewrite IH.
Qed.

Lemma well_formed_VObj fs :
  well_formed (VObj fs) = nodupb (keys fs) && forallb (fun kv => well_formed (snd kv)) fs.
Proof.
  simpl. f_equal.
  induction fs as [|[k v] fs IH]; simpl; [reflexivity | now rewrite IH].
Qed.

Lemma well_formed_VArr xs : well_formed (VArr xs) = forallb well_formed xs.
Proof.
  simpl. induction xs as [|x xs IH]; simpl; [reflexivity | now rewrite IH].
Qed.

Lemma has_key_In k (fs : list (string * JSValue)) :
  In k (keys fs) -> has_key k fs = true.
Proof.
  unfold has_key. intros H. apply existsb_exists. exists k. split; [assumption|].
  apply String.eqb_refl.
Qed.

Lemma same_keys_refl fs : same_keys fs fs = true.
Proof.
  unfold same_keys.
  assert (H : forallb (fun k => has_key k fs) (keys fs) = true).
  { apply forallb_forall. intros k Hk. now apply has_key_In. }
  now rewrite H.
Qed.

(** In a record without repeated keys every entry is the one found under
    its key. *)
Lemma nodupb_lookup (fs : list (string * JSValue)) k v :
  nodupb (keys fs) = true -> In (k, v) fs -> lookup k fs = Some v.
Proof.
  induction fs as [|[k' w] fs IH]; simpl; [contradiction|].
  intros Hnd [Heq | Hin].
  - injection Heq as -> ->. now rewrite String.eqb_refl.
  - apply andb_prop in Hnd as [Hfresh Hnd].
    destruct (k' =? k) eqn:E.
    + apply String.eqb_eq in E. subst k'.
      apply negb_true_iff in Hfresh.
      assert (Hk : existsb (String.eqb k) (keys fs) = true).
      { apply existsb_exists. exists k. split; [|apply String.eqb_refl].
        unfold keys. change k with (fst (k, v)). now apply in_map. }
      congruence.
    + now apply IH.
Qed.

Lemma deepEqual_refl v : well_formed v = true -> deepEqual v v = true.
Proof.
  induction v as [| | b | n | s | fs IH | xs IH] using JSValue_nested_ind;
    intros Hwf; try reflexivity.
  - now destruct b.
  - apply Z.eqb_refl.
  - apply String.eqb_refl.
  - rewrite well_formed_VObj in Hwf. apply andb_prop in Hwf as [Hnd Hall].
    rewrite deepEqual_VObj, same_keys_refl. simpl.
    unfold equal_fields. apply forallb_forall. intros [k w] Hin.
    simpl. rewrite (nodupb_lookup fs k w Hnd Hin).
    rewrite Forall_forall in IH. apply (IH (k, w) Hin).
    rewrite forallb_forall in Hall. apply (Hall (k, w) Hin).
  - rewrite well_formed_VArr in Hwf. rewrite deepEqual_VArr.
    induction xs as [|x xs IHxs]; simpl; [reflexivity|].
    simpl in Hwf. apply andb_prop in Hwf as [Hx Hxs].
    inversion IH as [|? ? Px Pxs]; subst.
    rewrite (Px Hx). simpl. now apply IHxs.
Qed.

(** Equal trees have equal children. *)
Lemma equal_items_nth xa xb i :
  equal_items deepEqual xa xb = true ->
  deepEqual (nth i xa VUndef) (nth i xb VUndef) = true.
Proof.
  revert xb i. induction xa as [|x xa IH]; intros [|y xb] i H; simpl in H;
    try discriminate.
  - now destruct i.
  - apply andb_prop in H as [Hxy Hrest]. destruct i as [|i]; simpl; auto.
Qed.

Lemma deepEqual_child a b p :
  deepEqual a b = true -> deepEqual (child a p) (child b p) = true.
Proof.
  intros H.
  destruct a, b; try discriminate H; try reflexivity.
  - rewrite deepEqual_VObj in H. apply andb_prop in H as [Hkeys Hvals].
    unfold child. simpl. generalize (key p). intros k.
    destruct (lookup k fields) as [v|] eqn:Ea.
    + unfold equal_fields in Hvals. rewrite forallb_forall in Hvals.
      specialize (Hvals (k, v) (lookup_In _ _ _ Ea)). simpl in Hvals.
      destruct (lookup k fields0); [assumption | discriminate].
    + destruct (lookup k fields0) as [w|] eqn:Eb; [|reflexivity].
      exfalso. unfold same_keys in Hkeys. apply andb_prop in Hkeys as [_ Hba].
      rewrite forallb_forall in Hba.
      assert (Hin : In k (keys fields0)).
      { unfold keys. change k with (fst (k, w)). apply in_map.
        now apply lookup_In. }
      specialize (Hba k Hin). apply has_key_lookup in Hba. contradiction.
  - rewrite deepEqual_VArr in H. unfold child. simpl.
    destruct (index_of (key p)) as [i|]; [|reflexivity].
    now apply equal_items_nth.
Qed.

Lemma deepEqual_getDeepProp a b P :
  deepEqual a b = true ->
  deepEqual (getDeepProp a P) (getDeepProp b P) = true.
Proof.
  revert a b. induction P as [|p P IH]; intros a b H; simpl; [assumption|].
  apply IH. now apply deepEqual_child.
Qed.

(** On leaves structural equality is equality. *)
Lemma deepEqual_leaf_l a b :
  is_leaf a = true -> deepEqual a b = true -> a = b.
Proof.
  destruct a, b; simpl; try discriminate; trivial; intros _ H.
  - f_equal. now apply Bool.eqb_prop.
  - f_equal. now apply Z.eqb_eq.
  - f_equal. now apply String.eqb_eq.
Qed.

Lemma deepEqual_leaf_r a b :
  is_leaf b = true -> deepEqual a b = true -> a = b.
Proof.
  destruct a, b; simpl; try discriminate; trivial; intros _ H.
  - f_equal. now apply Bool.eqb_prop.
  - f_equal. now apply Z.eqb_eq.
  - f_equal. now apply String.eqb_eq.
Qed.

(* ===================================================================== *)
(** ** The callbacks of the hook *)
(* ===================================================================== *)

Section HookFacts.
Context {App : Type}.
Variable options : UseFormOptions.
Implicit Types (w : @World App) (handler : @SubmitHandler App).

Lemma validate_unfold w :
  validate options w =
  (returned (safeParseAsync options (formValue w)),
   {| formValue := formValue w;
      formErrors := errorsOf (safeParseAsync options (formValue w));
      fieldRefs := fieldRefs w;
      validateOnChange := validateOnChange w;
      internalInitialValues := internalInitialValues w;
      document := document w;
      parseCalls := parseCalls w ++ [formValue w];
      app := app w |}).
Proof.
  unfold validate, bind, gets, schema_safeParseAsync. simpl.
  destruct (safeParseAsync options (formValue w)); reflexivity.
Qed.

(** ** C5 *)

(** C5.  Every call of [validate] hands the current tree value to the
    schema's parser.  When the parse succeeds the stored errors are
    cleared and the parsed data is returned; when it fails the stored
    errors become the error set of this parse and [undefined] is
    returned.  The errors stored afterwards do not depend on the errors
    stored before: nothing is merged. *)
Theorem validate_parses_and_replaces_errors :
  forall w,
    let w' := exec (validate options) w in
    parseCalls w' = parseCalls w ++ [formValue w] /\
    match safeParseAsync options (formValue w) with
    | SafeParseSuccess data =>
        formErrors w' = None /\ fst (validate options w) = data
    | SafeParseError error =>
        formErrors w' = Some error /\ fst (validate options w) = VUndef
    end /\
    (forall previous,
        formErrors (exec (validate options) (exec (setFormErrors previous) w))
        = formErrors w').
Proof.
  intros w w'. subst w'. unfold exec. rewrite validate_unfold. simpl.
  split; [reflexivity|]. split.
  - destruct (safeParseAsync options (formValue w)); split; reflexivity.
  - intros previous. rewrite validate_unfold. reflexivity.
Qed.

(** ** C10 *)

(** C10.  [validate] leaves the tree value and the baseline as they are,
    whether the parse succeeds or fails, and so the flag, the
    registration table, the controls and the application: of the hook's
    state only the stored errors change.  The parsed data is returned and
    not written to the tree, even where it differs from the tree. *)
Theorem validate_changes_only_errors :
  forall w,
    let w' := exec (validate options) w in
    formValue w' = formValue w /\
    internalInitialValues w' = internalInitialValues w /\
    validateOnChange w' = validateOnChange w /\
    fieldRefs w' = fieldRefs w /\
    document w' = document w /\
    app w' = app w.
Proof.
  intros w w'. subst w'. unfold exec. rewrite validate_unfold. simpl.
  repeat split.
Qed.

(** ** C9 *)

(** C9.  [reset] sets the baseline and the tree value to the values
    given, and, when none are given, to the initial values of the
    configuration ([{}] when the configuration has none), which are the
    values the form was constructed with; the flag and the stored errors
    stay as they are. *)
Theorem reset_sets_value_and_baseline :
  forall values w,
    let w' := exec (reset options values) w in
    let configured :=
      match initialValues options with
      | VUndef => VObj []
      | _ => initialValues options
      end in
    let target :=
      match values with
      | VUndef => configured
      | _ => values
      end in
    formValue w' = target /\
    internalInitialValues w' = target /\
    validateOnChange w' = validateOnChange w /\
    formErrors w' = formErrors w /\
    (forall d (a : App),
        formValue (initial options d a) = configured /\
        internalInitialValues (initial options d a) = configured).
Proof.
  intros values w. cbv zeta.
  assert (Hconf : initialValues_ options =
                  match initialValues options with
                  | VUndef => VObj []
                  | _ => initialValues options
                  end).
  { unfold initialValues_, orDefault. now destruct (initialValues options). }
  rewrite <- Hconf.
  repeat split; destruct values; reflexivity.
Qed.

(** ** C3 *)

(** C3 (amended).  The function that [handleSubmit handler] returns
    prevents the default action of its event and stops its propagation,
    runs [validate] (one parse of the current tree value), and calls the
    handler with the parsed data when the parse succeeded with data that
    is truthy (as every parsed object is) and not at all when it failed.
    Afterwards the flag is on, whatever the parse said, unless the
    handler threw: then the function ends at the call and the flag is
    what it was. *)
Theorem handleSubmit_validates_then_calls_handler :
  forall handler e w,
    let e' := fst (handleSubmit options handler e w) in
    let w' := exec (handleSubmit options handler e) w in
    defaultPrevented e' = true /\
    propagationStopped e' = true /\
    parseCalls w' = parseCalls w ++ [formValue w] /\
    formErrors w' = formErrors (exec (validate options) w) /\
    match safeParseAsync options (formValue w) with
    | SafeParseSuccess data =>
        if JSBoolean data then
          match handler data (app w) with
          | Returns a => app w' = a /\ validateOnChange w' = true
          | Throws a => app w' = a /\ validateOnChange w' = validateOnChange w
          end
        else app w' = app w /\ validateOnChange w' = true
    | SafeParseError _ => app w' = app w /\ validateOnChange w' = true
    end /\
    (forall fs, JSBoolean (VObj fs) = true).
Proof.
  intros handler e w. cbv zeta. unfold exec, handleSubmit, bind.
  rewrite validate_unfold.
  destruct (safeParseAsync options (formValue w)) as [data|error]; simpl.
  - destruct (JSBoolean data) eqn:Hb; simpl.
    + unfold call. simpl.
      destruct (handler data (app w)); simpl; repeat split.
    + repeat split.
  - repeat split.
Qed.

(** ** C1 *)

(** C1.  The [onChange] of a registered field writes to the tree at the
    field's path: the checked state when the control's type is checkbox;
    otherwise, for an empty value, [undefined] when the unwrapped schema
    is not a string schema and the empty string when it is. *)
Theorem onChange_coerces_empty_input :
  forall path fieldSchema e w,
    let el := currentTarget e in
    let w' := exec (onChange (register path fieldSchema) e) w in
    let stores v :=
      formValue w' = setDeepProp (formValue w) path v /\
      getDeepProp (formValue w') path = v in
    (isCheckboxType (type el) = true -> stores (VBool (checked el))) /\
    (isCheckboxType (type el) = false -> value el = "" ->
     isZodString (unwrapZodType fieldSchema) = false -> stores VUndef) /\
    (isCheckboxType (type el) = false -> value el = "" ->
     isZodString (unwrapZodType fieldSchema) = true -> stores (VStr "")).
Proof.
  intros path fieldSchema e w. simpl.
  repeat split; intros; simpl;
    repeat match goal with
           | H : _ = _ |- _ => rewrite H
           end; simpl; try reflexivity; apply get_set_same.
Qed.

(** ** The effect *)

Lemma exec_bind {A B : Type} (c : @M App A) (k : A -> @M App B) w :
  exec (bind c k) w = exec (k (fst (c w))) (exec c w).
Proof. unfold exec, bind. now destruct (c w). Qed.

Lemma setRegisteredField_unfold fv f w :
  exec (setRegisteredField fv f) w =
  {| formValue := formValue w;
     formErrors := formErrors w;
     fieldRefs := fieldRefs w;
     validateOnChange := validateOnChange w;
     internalInitialValues := internalInitialValues w;
     document :=
       write (ref f) (shown (getDeepProp fv (path f)) (document w (ref f)))
             (document w);
     parseCalls := parseCalls w;
     app := app w |}.
Proof.
  unfold exec, setRegisteredField, shown, bind, gets. simpl.
  destruct (isRadio (document w (ref f)));
    [destruct (strict_eq_string _ _); reflexivity|].
  destruct (isCheckbox (document w (ref f))); reflexivity.
Qed.

Lemma forEach_cons {A : Type} (x : A) xs (f : A -> @M App unit) w :
  exec (forEach (x :: xs) f) w = exec (forEach xs f) (exec (f x) w).
Proof. simpl. now rewrite exec_bind. Qed.

Lemma forEach_app {A : Type} (xs ys : list A) (f : A -> @M App unit) w :
  exec (forEach (xs ++ ys) f) w = exec (forEach ys f) (exec (forEach xs f) w).
Proof.
  revert w. induction xs as [|x xs IH]; intros w; [reflexivity|].
  rewrite <- List.app_comm_cons, !forEach_cons. apply IH.
Qed.

(** The loop over the registered fields writes to controls only. *)
Lemma loop_frame fv fs w :
  let w' := exec (forEach fs (setRegisteredField fv)) w in
  formValue w' = formValue w /\
  formErrors w' = formErrors w /\
  fieldRefs w' = fieldRefs w /\
  validateOnChange w' = validateOnChange w /\
  internalInitialValues w' = internalInitialValues w /\
  parseCalls w' = parseCalls w /\
  app w' = app w.
Proof.
  revert w. induction fs as [|f fs IH]; intros w; simpl.
  - repeat split.
  - fold (exec (bind (setRegisteredField fv f)
                     (fun _ => forEach fs (setRegisteredField fv))) w).
    rewrite exec_bind.
    specialize (IH (exec (setRegisteredField fv f) w)). simpl in IH.
    rewrite setRegisteredField_unfold in IH at 2 4 6 8 10 12 14.
    exact IH.
Qed.

Lemma exec_gets {A : Type} (f : @World App -> A) w : exec (gets f) w = w.
Proof. reflexivity. Qed.

Lemma fst_gets {A : Type} (f : @World App -> A) w : fst (gets f w) = f w.
Proof. reflexivity. Qed.

Lemma exec_ret {A : Type} (a : A) w : exec (ret a) w = w.
Proof. reflexivity. Qed.

Lemma validate_frame w :
  formValue (exec (validate options) w) = formValue w /\
  fieldRefs (exec (validate options) w) = fieldRefs w /\
  validateOnChange (exec (validate options) w) = validateOnChange w.
Proof. unfold exec. rewrite validate_unfold. repeat split. Qed.

Lemma watch_unfold w :
  exec (watch options) w =
  exec (forEach (values (fieldRefs w)) (setRegisteredField (formValue w)))
       (if validateOnChange w then exec (validate options) w else w).
Proof.
  unfold watch.
  rewrite !exec_bind, !exec_gets, !fst_gets.
  destruct (validateOnChange w) eqn:Hv.
  - rewrite exec_bind, exec_ret.
    destruct (validate_frame w) as (-> & -> & _). reflexivity.
  - rewrite exec_ret. reflexivity.
Qed.

Lemma watch_frame w :
  let w' := exec (watch options) w in
  formValue w' = formValue w /\
  fieldRefs w' = fieldRefs w /\
  validateOnChange w' = validateOnChange w /\
  internalInitialValues w' = internalInitialValues w /\
  app w' = app w /\
  parseCalls w' =
    (if validateOnChange w then parseCalls w ++ [formValue w] else parseCalls w) /\
  formErrors w' =
    (if validateOnChange w
     then errorsOf (safeParseAsync options (formValue w)) else formErrors w).
Proof.
  simpl. rewrite watch_unfold.
  pose proof (loop_frame (formValue w) (values (fieldRefs w))
                (if validateOnChange w then exec (validate options) w else w)) as H.
  simpl in H. destruct H as (H1 & H2 & H3 & H4 & H5 & H6 & H7).
  rewrite H1, H2, H3, H4, H5, H6, H7.
  destruct (validateOnChange w) eqn:Hv; [|rewrite Hv; repeat split].
  unfold exec. rewrite validate_unfold. simpl. rewrite Hv. repeat split.
Qed.

Lemma handleSubmit_unfold handler e w :
  exec (handleSubmit options handler e) w =
  {| formValue := formValue w;
     formErrors := errorsOf (safeParseAsync options (formValue w));
     fieldRefs := fieldRefs w;
     validateOnChange := runsToEnd options handler w || validateOnChange w;
     internalInitialValues := internalInitialValues w;
     document := document w;
     parseCalls := parseCalls w ++ [formValue w];
     app :=
       if JSBoolean (returned (safeParseAsync options (formValue w)))
       then match handler (returned (safeParseAsync options (formValue w)))
                          (app w) with
            | Returns a => a
            | Throws a => a
            end
       else app w |}.
Proof.
  unfold exec, handleSubmit, bind, runsToEnd, returnsAt. rewrite validate_unfold.
  cbv zeta.
  destruct (JSBoolean (returned (safeParseAsync options (formValue w))));
    [|reflexivity].
  unfold call. simpl.
  destruct (handler (returned (safeParseAsync options (formValue w))) (app w));
    reflexivity.
Qed.

(** ** The flag along a run of actions *)

Lemma dispatch_submit handler e w :
  exec (dispatch options (Submit handler e)) w =
  if negb (validateOnChange w)
     && validateOnChange (exec (handleSubmit options handler e) w)
  then exec (watch options) (exec (handleSubmit options handler e) w)
  else exec (handleSubmit options handler e) w.
Proof.
  unfold dispatch. rewrite !exec_bind, !exec_gets, !fst_gets.
  destruct (negb (validateOnChange w)
            && validateOnChange (exec (handleSubmit options handler e) w));
    reflexivity.
Qed.

Lemma dispatch_flag a w :
  validateOnChange (exec (dispatch options a) w)
  = validateOnChange w || completes options a w.
Proof.
  destruct a as [handler e | values | path fieldSchema e | path fieldSchema r].
  - rewrite dispatch_submit.
    destruct (negb (validateOnChange w)
              && validateOnChange (exec (handleSubmit options handler e) w)).
    + destruct (watch_frame (exec (handleSubmit options handler e) w))
        as (_ & _ & -> & _).
      rewrite handleSubmit_unfold. simpl. apply orb_comm.
    + rewrite handleSubmit_unfold. simpl. apply orb_comm.
  - unfold dispatch. rewrite exec_bind.
    destruct (watch_frame (exec (reset options values) w)) as (_ & _ & -> & _).
    simpl. now rewrite orb_false_r.
  - unfold dispatch. rewrite exec_bind.
    destruct (watch_frame (exec (onChange (register path fieldSchema) e) w))
      as (_ & _ & -> & _).
    simpl. now rewrite orb_false_r.
  - destruct r as [r|]; simpl; now rewrite orb_false_r.
Qed.

Lemma dispatch_quiet a w :
  isSubmit a = false -> validateOnChange w = false ->
  parseCalls (exec (dispatch options a) w) = parseCalls w.
Proof.
  intros Ha Hv.
  destruct a as [handler e | values | path fieldSchema e | path fieldSchema r];
    try discriminate; unfold dispatch.
  - rewrite exec_bind.
    destruct (watch_frame (exec (reset options values) w))
      as (_ & _ & _ & _ & _ & -> & _).
    simpl. now rewrite Hv.
  - rewrite exec_bind.
    destruct (watch_frame (exec (onChange (register path fieldSchema) e) w))
      as (_ & _ & _ & _ & _ & -> & _).
    simpl. now rewrite Hv.
  - destruct r as [r|]; reflexivity.
Qed.

Lemma dispatch_change path fieldSchema e w :
  let w' := exec (dispatch options (Change path fieldSchema e)) w in
  parseCalls w' =
    if validateOnChange w then parseCalls w ++ [formValue w'] else parseCalls w.
Proof.
  cbv zeta. unfold dispatch. rewrite exec_bind.
  destruct (watch_frame (exec (onChange (register path fieldSchema) e) w))
    as (-> & _ & _ & _ & _ & -> & _).
  reflexivity.
Qed.

Lemma run_cons a actions w :
  run options (a :: actions) w = run options actions (exec (dispatch options a) w).
Proof. reflexivity. Qed.

Lemma run_keeps_flag actions w :
  validateOnChange w = true -> validateOnChange (run options actions w) = true.
Proof.
  revert w. induction actions as [|a actions IH]; intros w Hv; [assumption|].
  rewrite run_cons. apply IH. now rewrite dispatch_flag, Hv.
Qed.

Lemma completes_isSubmit a w :
  alwaysReturns a -> completes options a w = isSubmit a.
Proof.
  destruct a as [handler e | | |]; simpl; try reflexivity.
  intros H. unfold runsToEnd.
  destruct (JSBoolean (returned (safeParseAsync options (formValue w))));
    [apply H | reflexivity].
Qed.

Lemma run_flag actions w :
  Forall alwaysReturns actions ->
  validateOnChange (run options actions w)
  = validateOnChange w || existsb isSubmit actions.
Proof.
  intros H. revert w. induction H as [|a actions Ha _ IH]; intros w.
  - simpl. now rewrite orb_false_r.
  - rewrite run_cons, IH, dispatch_flag, (completes_isSubmit _ _ Ha). simpl.
    now rewrite orb_assoc.
Qed.

Lemma completes_not_submit a w : isSubmit a = false -> completes options a w = false.
Proof. destruct a; simpl; [discriminate | reflexivity ..]. Qed.

Lemma run_quiet actions w :
  existsb isSubmit actions = false -> validateOnChange w = false ->
  validateOnChange (run options actions w) = false /\
  parseCalls (run options actions w) = parseCalls w.
Proof.
  revert w. induction actions as [|a actions IH]; intros w Hs Hv;
    [now split|].
  simpl in Hs. apply orb_false_elim in Hs as [Ha Hs].
  rewrite run_cons.
  destruct (IH (exec (dispatch options a) w)) as [Hflag Hcalls];
    [assumption | |].
  - now rewrite dispatch_flag, Hv, completes_not_submit.
  - split; [assumption|]. rewrite Hcalls. now apply dispatch_quiet.
Qed.

Lemma mount_flag d (a : App) : validateOnChange (mount options d a) = false.
Proof.
  unfold mount.
  destruct (watch_frame (initial options d a)) as (_ & _ & -> & _). reflexivity.
Qed.

Lemma mount_parseCalls d (a : App) : parseCalls (mount options d a) = [].
Proof.
  unfold mount.
  destruct (watch_frame (initial options d a)) as (_ & _ & _ & _ & _ & -> & _).
  reflexivity.
Qed.

(** ** C2 *)

(** C2 (amended).  The flag is off on a freshly mounted form.  Each
    action leaves it as it was, except a submit that runs to its end (the
    parse failed, or the handler was called and returned), which leaves
    it on whatever the parse says; a submit whose handler throws leaves
    it as it was.  Once on, it stays on through any run of actions, and
    [reset] does not touch it.  A run without a submit leaves it off and
    makes no parse; with handlers that return, it is on after a run
    exactly when the run holds a submit.  A change of value makes the
    effect parse the new tree value when the flag is on and makes no
    parse when it is off. *)
Theorem validateOnChange_turns_on_at_first_submit :
  (forall d (a : App), validateOnChange (mount options d a) = false) /\
  (forall a w,
      validateOnChange (exec (dispatch options a) w)
      = validateOnChange w || completes options a w) /\
  (forall actions w,
      validateOnChange w = true ->
      validateOnChange (run options actions w) = true) /\
  (forall actions d (a : App),
      Forall alwaysReturns actions ->
      validateOnChange (run options actions (mount options d a))
      = existsb isSubmit actions) /\
  (forall values w,
      validateOnChange (exec (reset options values) w) = validateOnChange w) /\
  (forall path fieldSchema e w,
      let w' := exec (dispatch options (Change path fieldSchema e)) w in
      parseCalls w' =
        if validateOnChange w then parseCalls w ++ [formValue w']
        else parseCalls w) /\
  (forall actions d (a : App),
      existsb isSubmit actions = false ->
      validateOnChange (run options actions (mount options d a)) = false /\
      parseCalls (run options actions (mount options d a)) = []).
Proof.
  split; [exact mount_flag|].
  split; [exact dispatch_flag|].
  split; [exact run_keeps_flag|].
  split; [intros actions d a H; now rewrite run_flag, mount_flag|].
  split; [reflexivity|].
  split; [exact dispatch_change|].
  intros actions d a Hs.
  destruct (run_quiet actions (mount options d a) Hs (mount_flag d a))
    as [Hflag Hcalls].
  split; [assumption|]. rewrite Hcalls. apply mount_parseCalls.
Qed.

(** ** C4 *)

Lemma isDirty_after_set w path v :
  isDirty w = false -> is_leaf v = true ->
  getDeepProp (formValue w) path <> v ->
  isDirty (exec (setFormValue (fun t => setDeepProp t path v)) w) = true.
Proof.
  unfold isDirty. simpl. intros Hclean Hleaf Hnew.
  apply negb_false_iff in Hclean.
  destruct (deepEqual (setDeepProp (formValue w) path v) (internalInitialValues w))
    eqn:E; [exfalso | reflexivity].
  apply (deepEqual_getDeepProp _ _ path) in E. rewrite get_set_same in E.
  apply (deepEqual_getDeepProp _ _ path) in Hclean.
  apply (deepEqual_leaf_l _ _ Hleaf) in E. rewrite <- E in Hclean.
  apply (deepEqual_leaf_r _ _ Hleaf) in Hclean. contradiction.
Qed.

(** C4 (amended).  [isDirty] holds exactly when the tree value is not
    deeply equal to the baseline.  It does not hold on a freshly mounted
    form nor right after [reset], whatever the values (taken among the
    trees whose records list no key twice, as every object does).  On a
    form that is not dirty, a set that puts a new leaf value at a path
    makes it hold; from then on it holds for as long as the tree differs
    from the baseline, which a later set can undo as well as a reset. *)
Theorem isDirty_compares_with_baseline :
  forall w,
    (isDirty w = true <->
     deepEqual (formValue w) (internalInitialValues w) = false) /\
    (forall d (a : App),
        well_formed (initialValues_ options) = true ->
        isDirty (mount options d a) = false) /\
    (forall values,
        well_formed (orDefault (initialValues_ options) values) = true ->
        isDirty (exec (reset options values) w) = false) /\
    (forall path v,
        isDirty w = false -> is_leaf v = true ->
        getDeepProp (formValue w) path <> v ->
        isDirty (exec (setFormValue (fun t => setDeepProp t path v)) w) = true).
Proof.
  intros w. split; [|split; [|split]].
  - unfold isDirty. apply negb_true_iff.
  - intros d a Hwf. unfold isDirty, mount.
    destruct (watch_frame (initial options d a)) as (-> & _ & _ & -> & _).
    simpl. now rewrite deepEqual_refl.
  - intros values Hwf. unfold isDirty. simpl. now rewrite deepEqual_refl.
  - intros path v. apply isDirty_after_set.
Qed.

(** ** C7 *)

Lemma write_same r el d : write r el d r = el.
Proof. unfold write. now rewrite Nat.eqb_refl. Qed.

Lemma write_other r r' el d : r' <> r -> write r el d r' = d r'.
Proof.
  intros Hne. unfold write.
  destruct (Nat.eqb r' r) eqn:E; [apply Nat.eqb_eq in E; contradiction | reflexivity].
Qed.

Lemma shown_type v el : type (shown v el) = type el.
Proof.
  unfold shown. destruct (isRadio el); [reflexivity|].
  destruct (isCheckbox el); reflexivity.
Qed.

Lemma shown_radio_value v el : isRadio el = true -> value (shown v el) = value el.
Proof. unfold shown. now intros ->. Qed.

Lemma isRadio_type a b : type a = type b -> isRadio a = isRadio b.
Proof. unfold isRadio. now intros ->. Qed.

Lemma isCheckbox_type a b : type a = type b -> isCheckbox a = isCheckbox b.
Proof. unfold isCheckbox. now intros ->. Qed.

Lemma loop_type fv fs w r :
  type (document (exec (forEach fs (setRegisteredField fv)) w) r)
  = type (document w r).
Proof.
  revert w. induction fs as [|f fs IH]; intros w; [reflexivity|].
  rewrite forEach_cons, IH, setRegisteredField_unfold. simpl.
  destruct (Nat.eq_dec r (ref f)) as [->|Hne].
  - now rewrite write_same, shown_type.
  - now rewrite write_other.
Qed.

Lemma loop_radio_value fv fs w r :
  isRadio (document w r) = true ->
  value (document (exec (forEach fs (setRegisteredField fv)) w) r)
  = value (document w r).
Proof.
  revert w. induction fs as [|f fs IH]; intros w Hr; [reflexivity|].
  rewrite forEach_cons.
  assert (Hstep :
    value (document (exec (setRegisteredField fv f) w) r) = value (document w r) /\
    type (document (exec (setRegisteredField fv f) w) r) = type (document w r)).
  { rewrite setRegisteredField_unfold. simpl.
    destruct (Nat.eq_dec r (ref f)) as [->|Hne].
    - now rewrite write_same, shown_type, shown_radio_value.
    - now rewrite write_other. }
  destruct Hstep as [Hval Hty].
  rewrite IH; [assumption|]. now rewrite (isRadio_type _ _ Hty).
Qed.

Lemma loop_untouched fv fs w r :
  (forall f, In f fs -> ref f <> r) ->
  document (exec (forEach fs (setRegisteredField fv)) w) r = document w r.
Proof.
  revert w. induction fs as [|f fs IH]; intros w Hfs; [reflexivity|].
  rewrite forEach_cons, IH by (intros g Hg; apply Hfs; now right).
  rewrite setRegisteredField_unfold. simpl.
  apply write_other. intros ->. now apply (Hfs f); [left|].
Qed.

Lemma strict_eq_string_spec s v : strict_eq_string s v = true <-> v = VStr s.
Proof.
  destruct v; simpl; split; try discriminate.
  - intros H. apply String.eqb_eq in H. now subst.
  - intros [= ->]. apply String.eqb_refl.
Qed.

Lemma JSString_nullish v :
  JSString (nullish v (VStr "")) =
  match v with
  | VUndef | VNull => ""
  | _ => JSString v
  end.
Proof. now destruct v. Qed.

(** C7 (amended).  A run of the effect leaves the control of every entry
    of the registration table in the state that the tree value at the
    entry's path asks for (the entry being the last one of the table that
    names this control, as it is when every control is registered once):
    a radio control is checked exactly when the tree value is the string
    that is the control's own value; a checkbox control is checked
    exactly when the tree value is truthy; any other control shows the
    string form of the tree value, and the empty string when the tree
    value is [undefined] or [null]. *)
Theorem watch_pushes_tree_into_controls :
  forall w pre k f post,
    fieldRefs w = pre ++ (k, f) :: post ->
    (forall g, In g (values post) -> ref g <> ref f) ->
    let v := getDeepProp (formValue w) (path f) in
    let before := document w (ref f) in
    let after := document (exec (watch options) w) (ref f) in
    if isRadio before then
      value after = value before /\
      (checked after = true <-> v = VStr (value after))
    else if isCheckbox before then
      checked after = JSBoolean v
    else
      value after =
        match v with
        | VUndef | VNull => ""
        | _ => JSString v
        end.
Proof.
  intros w pre k f post Htable Hlast v before after.
  subst after. rewrite watch_unfold, Htable.
  set (w0 := if validateOnChange w then exec (validate options) w else w).
  assert (Hdoc : document w0 = document w).
  { subst w0. destruct (validateOnChange w); [|reflexivity].
    unfold exec. now rewrite validate_unfold. }
  unfold values. rewrite map_app. simpl map.
  rewrite forEach_app, forEach_cons.
  set (w1 := exec (forEach (map snd pre) (setRegisteredField (formValue w))) w0).
  rewrite loop_untouched by exact Hlast.
  rewrite setRegisteredField_unfold. simpl. rewrite write_same.
  assert (Hty : type (document w1 (ref f)) = type before).
  { subst w1 before. now rewrite loop_type, Hdoc. }
  fold v. unfold shown.
  rewrite (isRadio_type _ _ Hty), (isCheckbox_type _ _ Hty).
  destruct (isRadio before) eqn:Hr.
  - assert (Hval : value (document w1 (ref f)) = value before).
    { subst w1 before. rewrite loop_radio_value; rewrite Hdoc; [reflexivity|].
      exact Hr. }
    simpl. rewrite Hval. split; [reflexivity | apply strict_eq_string_spec].
  - destruct (isCheckbox before); simpl; [reflexivity | apply JSString_nullish].
Qed.

(** ** C8: the ref callback *)

Lemma length_append (a b : string) :
  String.length (a ++ b) = String.length a + String.length b.
Proof. induction a as [|c a IH]; simpl; [reflexivity | now rewrite IH]. Qed.

(** The key of a radio option is never the plain name. *)
Lemma radio_key_differs (n v : string) : (n ++ "." ++ v)%string <> n.
Proof.
  intros H. apply (f_equal String.length) in H.
  rewrite !length_append in H. simpl in H. lia.
Qed.

(** What the ref callback does on mount: one entry, under the name, or
    under the name followed by the option value for a radio control. *)
Lemma refCallback_mount path fieldSchema r w :
  let reg := @register App path fieldSchema in
  let el := document w r in
  let refIndex := if isRadio el then (name reg ++ "." ++ value el)%string else name reg in
  lookup refIndex (fieldRefs (exec (refCallback reg (Some r)) w))
  = Some {| path := path; ref := r |}.
Proof. simpl. apply lookup_assign_eq. Qed.

(** On unmount the entry under the plain name is gone ... *)
Lemma refCallback_unmount path fieldSchema w :
  let reg := @register App path fieldSchema in
  lookup (name reg) (fieldRefs (exec (refCallback reg None) w)) = None.
Proof. simpl. apply lookup_delete_eq. Qed.

(** ... and the entry of a radio option, which is under another key,
    stays. *)
Lemma refCallback_unmount_radio path fieldSchema r w :
  let reg := @register App path fieldSchema in
  let el := document w r in
  isRadio el = true ->
  lookup (name reg ++ "." ++ value el)%string
         (fieldRefs (exec (refCallback reg None) (exec (refCallback reg (Some r)) w)))
  = Some {| path := path; ref := r |}.
Proof.
  simpl. intros ->.
  rewrite lookup_delete_ne by (intros H; symmetry in H; now apply radio_key_differs in H).
  apply lookup_assign_eq.
Qed.

End HookFacts.

(* ===================================================================== *)
(** ** get after set *)
(* ===================================================================== *)


(* ===================================================================== *)
(** ** The small form at work *)
(* ===================================================================== *)

Module DemoFacts.
Import Demo.


Lemma onChange_coerces_empty_input_witness :
  getDeepProp
    (formValue (exec (onChange (register [Key "agree"] ZodBoolean)
                               {| currentTarget :=
                                    {| type := Some "CHECKBOX"; value := "on";
                                       checked := true |} |}) fresh))
    [Key "agree"] = VBool true /\
  getDeepProp
    (formValue (exec (onChange (register [Key "age"] (ZodOptional ZodNumber))
                               (typed "")) fresh))
    [Key "age"] = VUndef /\
  getDeepProp
    (formValue (exec (onChange (register [Key "name"] (ZodDefault ZodString))
                               (typed "")) fresh))
    [Key "name"] = VStr "".
Proof.
  split; [|split].
  - apply (onChange_coerces_empty_input [Key "agree"] ZodBoolean
             {| currentTarget :=
                  {| type := Some "CHECKBOX"; value := "on"; checked := true |} |}
             fresh).
    reflexivity.
  - apply (onChange_coerces_empty_input [Key "age"] (ZodOptional ZodNumber)
             (typed "") fresh); reflexivity.
  - apply (onChange_coerces_empty_input [Key "name"] (ZodDefault ZodString)
             (typed "") fresh); reflexivity.
Defined.

Lemma validateOnChange_turns_on_at_first_submit_witness :
  validateOnChange
    (run options
         [Change [Key "name"] ZodString (typed "Al"); Submit keep submitEvent;
          Reset VUndef]
         fresh) = true /\
  validateOnChange
    (run options [Reset VUndef; Attach [Key "name"] ZodString None]
         (run options [Submit keep submitEvent] fresh)) = true /\
  parseCalls
    (run options
         [Change [Key "name"] ZodString (typed "Al"); Reset VUndef;
          Attach [Key "name"] ZodString (Some 0)]
         fresh) = [].
Proof.
  destruct (@validateOnChange_turns_on_at_first_submit (list JSValue) options)
    as (_ & _ & Hstays & Hreturns & _ & _ & Hquiet).
  split; [|split].
  - apply (Hreturns
             [Change [Key "name"] ZodString (typed "Al"); Submit keep submitEvent;
              Reset VUndef] page []).
    repeat constructor.
  - apply Hstays. reflexivity.
  - apply (Hquiet
             [Change [Key "name"] ZodString (typed "Al"); Reset VUndef;
              Attach [Key "name"] ZodString (Some 0)] page []).
    reflexivity.
Defined.

(** C2, as stated, fails: the name is typed, the form is submitted with
    a handler that throws, and the name is changed.  The first submit
    has happened and its parse succeeded, yet the flag is off and the
    later change made no parse: the only parse is that of the submit. *)
Lemma validateOnChange_counterexample :
  let actions :=
    [Change [Key "name"] ZodString (typed "Al"); Submit refuse submitEvent;
     Change [Key "name"] ZodString (typed "Bo")] in
  let w := run options actions fresh in
  existsb isSubmit actions = true /\
  validateOnChange w = false /\
  formValue w = VObj [("name", VStr "Bo")] /\
  parseCalls w = [VObj [("name", VStr "Al")]].
Proof. repeat split. Qed.

(** C3, as stated, fails: the name is typed and the form is submitted
    with a handler that throws.  The parse succeeds, the handler is
    called, and the flag is off afterwards. *)
Lemma handleSubmit_counterexample :
  let w := exec (onChange (register [Key "name"] ZodString) (typed "Al")) fresh in
  let w' := exec (handleSubmit options refuse submitEvent) w in
  safeParseAsync options (formValue w)
  = SafeParseSuccess (VObj [("name", VStr "Al")]) /\
  refuse (VObj [("name", VStr "Al")]) (app w) = Throws (app w) /\
  validateOnChange w' = false.
Proof. repeat split. Qed.

Lemma reset_sets_value_and_baseline_witness :
  let opts := optionsWith (VObj [("name", VStr "x")]) in
  let w := exec (onChange (register [Key "name"] ZodString) (typed "y"))
                (mount opts page (@nil JSValue)) in
  formValue w = VObj [("name", VStr "y")] /\
  formValue (exec (reset opts VUndef) w) = VObj [("name", VStr "x")] /\
  internalInitialValues (exec (reset opts VUndef) w) = VObj [("name", VStr "x")] /\
  formValue (exec (reset opts (VObj [("name", VStr "Al")])) w)
  = VObj [("name", VStr "Al")] /\
  formValue (exec (reset options VUndef) fresh) = VObj [].
Proof.
  intros opts w.
  destruct (reset_sets_value_and_baseline opts VUndef w) as (H1 & H2 & _).
  destruct (reset_sets_value_and_baseline opts (VObj [("name", VStr "Al")]) w)
    as (H3 & _).
  destruct (reset_sets_value_and_baseline options VUndef fresh) as (H4 & _).
  split; [reflexivity|].
  split; [exact H1|]. split; [exact H2|]. split; [exact H3 | exact H4].
Defined.

Lemma isDirty_compares_with_baseline_witness :
  isDirty fresh = false /\
  isDirty (exec (reset options (VObj [("name", VStr "Al")])) fresh) = false /\
  isDirty
    (exec (setFormValue (fun t => setDeepProp t [Key "name"] (VStr "Al"))) fresh)
  = true.
Proof.
  destruct (isDirty_compares_with_baseline options fresh)
    as (_ & Hmount & Hreset & Hset).
  split; [|split].
  - apply Hmount. reflexivity.
  - apply Hreset. reflexivity.
  - apply Hset; [reflexivity | reflexivity | discriminate].
Defined.

(** C4, as stated, fails: with the baseline [{name: "x"}] and the tree
    at [{name: "y"}], the set that puts ["x"] back changes a leaf value,
    no reset has happened, and the form is not dirty. *)
Lemma isDirty_counterexample :
  let opts := optionsWith (VObj [("name", VStr "x")]) in
  let w0 := mount opts page (@nil JSValue) in
  let w1 := exec (onChange (register [Key "name"] ZodString) (typed "y")) w0 in
  let w2 := exec (onChange (register [Key "name"] ZodString) (typed "x")) w1 in
  isDirty w1 = true /\
  getDeepProp (formValue w1) [Key "name"] = VStr "y" /\
  getDeepProp (formValue w2) [Key "name"] = VStr "x" /\
  internalInitialValues w2 = internalInitialValues w0 /\
  isDirty w2 = false.
Proof. repeat split. Qed.

(** The two radio options of [choice] and the text input of [name],
    all three registered, with the tree at [{choice: "a", name: 7}]. *)
Lemma watch_pushes_tree_into_controls_witness :
  let opts := optionsWith (VObj [("choice", VStr "a"); ("name", VNum 7)]) in
  let w :=
    run opts
        [Attach [Key "choice"] ZodString (Some 1);
         Attach [Key "choice"] ZodString (Some 2);
         Attach [Key "name"] ZodString (Some 0)]
        (mount opts page (@nil JSValue)) in
  let w' := exec (watch opts) w in
  (checked (document w' 1) = true <-> VStr "a" = VStr (value (document w' 1))) /\
  (checked (document w' 2) = true <-> VStr "a" = VStr (value (document w' 2))) /\
  value (document w' 0) = "7".
Proof.
  intros opts w w'. split; [|split].
  - apply (watch_pushes_tree_into_controls opts w []
             "choice.a" {| path := [Key "choice"]; ref := 1 |}
             [("choice.b", {| path := [Key "choice"]; ref := 2 |});
              ("name", {| path := [Key "name"]; ref := 0 |})]).
    + reflexivity.
    + intros g [<-|[<-|[]]]; discriminate.
  - apply (watch_pushes_tree_into_controls opts w
             [("choice.a", {| path := [Key "choice"]; ref := 1 |})]
             "choice.b" {| path := [Key "choice"]; ref := 2 |}
             [("name", {| path := [Key "name"]; ref := 0 |})]).
    + reflexivity.
    + intros g [<-|[]]; discriminate.
  - apply (watch_pushes_tree_into_controls opts w
             [("choice.a", {| path := [Key "choice"]; ref := 1 |});
              ("choice.b", {| path := [Key "choice"]; ref := 2 |})]
             "name" {| path := [Key "name"]; ref := 0 |} []).
    + reflexivity.
    + intros g [].
Defined.

(** C7, as stated, fails at [null]: the tree holds [null] under [name],
    which is not the absent value and whose string form is ["null"]; the
    text input, which showed a draft, is left empty by the effect. *)
Lemma watch_null_counterexample :
  let opts := optionsWith (VObj [("name", VNull)]) in
  let w :=
    exec (refCallback (register [Key "name"] (ZodNullable ZodString)) (Some 0))
         (mount opts page (@nil JSValue)) in
  let w' := exec (watch opts) w in
  fieldRefs w = [("name", {| path := [Key "name"]; ref := 0 |})] /\
  isRadio (document w 0) = false /\
  isCheckbox (document w 0) = false /\
  value (document w 0) = "draft" /\
  getDeepProp (formValue w) [Key "name"] = VNull /\
  VNull <> VUndef /\
  JSString VNull = "null" /\
  value (document w' 0) = "" /\
  value (document w' 0) <> JSString VNull.
Proof. repeat split; discriminate. Qed.

(** C8 at a radio control: the option a of [choice] is mounted and then
    unmounted; its entry is still in the table. *)
Theorem refCallback_unmount_radio_keeps_entry :
  let reg := register [Key "choice"] ZodString in
  let mounted := exec (refCallback reg (Some 1)) fresh in
  let unmounted := exec (refCallback reg None) mounted in
  name reg = "choice" /\
  fieldRefs mounted = [("choice.a", {| path := [Key "choice"]; ref := 1 |})] /\
  fieldRefs unmounted = [("choice.a", {| path := [Key "choice"]; ref := 1 |})].
Proof. repeat split. Qed.

End DemoFacts.

(* ===================================================================== *)
(** ** Further properties of the hook *)
(* ===================================================================== *)

Section MoreHookFacts.
Context {App : Type}.
Variable options : UseFormOptions.
Implicit Types (w : @World App) (handler : @SubmitHandler App).

(** *** What [onChange] stores *)

Lemma strict_eq_empty s : s <> "" -> strict_eq_string "" (VStr s) = false.
Proof.
  intros Hs. destruct s; [now contradiction Hs | reflexivity].
Qed.

(** X1.  On a control that is no checkbox, a non-empty value is stored as
    the string it is, whatever the schema of the field (a number field
    holds the digits typed, not a number); nothing but the tree value
    changes, and no parse is made. *)
Theorem onChange_stores_typed_string :
  forall path fieldSchema e w,
    isCheckboxType (type (currentTarget e)) = false ->
    value (currentTarget e) <> "" ->
    let w' := exec (onChange (register path fieldSchema) e) w in
    formValue w' = setDeepProp (formValue w) path (VStr (value (currentTarget e))) /\
    formErrors w' = formErrors w /\
    internalInitialValues w' = internalInitialValues w /\
    validateOnChange w' = validateOnChange w /\
    fieldRefs w' = fieldRefs w /\
    document w' = document w /\
    parseCalls w' = parseCalls w /\
    app w' = app w.
Proof.
  intros path fieldSchema e w Hbox Hs.
  unfold exec, register, onChange. cbv zeta.
  rewrite Hbox, (strict_eq_empty _ Hs), andb_false_r.
  repeat split.
Qed.

(** *** The name of a field *)

Lemma append_assoc (a b c : string) : ((a ++ b) ++ c)%string = (a ++ (b ++ c))%string.
Proof. induction a as [|x a IH]; simpl; [reflexivity | now rewrite IH]. Qed.

Lemma join_snoc sep xs x :
  xs <> [] -> join sep (xs ++ [x]) = (join sep xs ++ sep ++ x)%string.
Proof.
  induction xs as [|y xs IH]; intros Hne; [contradiction|].
  destruct xs as [|z xs].
  - reflexivity.
  - change (join sep ((y :: z :: xs) ++ [x]))
      with (y ++ sep ++ join sep ((z :: xs) ++ [x]))%string.
    rewrite IH by discriminate.
    change (join sep (y :: z :: xs)) with (y ++ sep ++ join sep (z :: xs))%string.
    now rewrite !append_assoc.
Qed.

(** X2.  The name that [register] gives a field is built from the keys
    of its path alone: a path of one segment is named by its key, and a
    longer path by the name of its parent, a dot, and its last key.  The
    schema of the field plays no part. *)
Theorem register_name_is_dotted :
  forall p fieldSchema,
    name (@register App [p] fieldSchema) = key p /\
    (forall path parentSchema,
        path <> [] ->
        name (@register App (path ++ [p]) fieldSchema)
        = (name (@register App path parentSchema) ++ "." ++ key p)%string).
Proof.
  intros p fieldSchema. split; [reflexivity|].
  intros path parentSchema Hne. simpl.
  rewrite map_app. simpl map. apply join_snoc.
  destruct path; [contradiction | discriminate].
Qed.

(** *** The ref callback and the table *)

Lemma append_inj_l (n a b : string) : (n ++ a)%string = (n ++ b)%string -> a = b.
Proof.
  induction n as [|c n IH]; simpl; intros H; [assumption|].
  injection H as H. now apply IH.
Qed.

(** X3.  For a control that is no radio, the mount puts the entry for
    this control under the field's name, replacing what was there, and
    the unmount takes it away again; the entries under every other key
    stay what they were throughout. *)
Theorem refCallback_mount_then_unmount :
  forall path fieldSchema r w,
    isRadio (document w r) = false ->
    let reg := @register App path fieldSchema in
    let mounted := exec (refCallback reg (Some r)) w in
    let unmounted := exec (refCallback reg None) mounted in
    (forall k,
        lookup k (fieldRefs mounted) =
        if name reg =? k then Some {| path := path; ref := r |}
        else lookup k (fieldRefs w)) /\
    (forall k,
        lookup k (fieldRefs unmounted) =
        if name reg =? k then None else lookup k (fieldRefs w)).
Proof.
  intros path fieldSchema r w Hr. simpl. rewrite Hr.
  split; intros k; destruct (join "." (map key path) =? k) eqn:E.
  - apply String.eqb_eq in E. subst k. apply lookup_assign_eq.
  - apply String.eqb_neq in E. now apply lookup_assign_ne.
  - apply String.eqb_eq in E. subst k. apply lookup_delete_eq.
  - apply String.eqb_neq in E.
    rewrite lookup_delete_ne by assumption. now apply lookup_assign_ne.
Qed.

(** X4.  Two radio controls of one field whose option values differ are
    kept apart: after both have mounted, each has its own entry, under
    the name followed by its option value, and the entry under the plain
    name is what it was. *)
Theorem refCallback_keeps_radio_options_apart :
  forall path fieldSchema r1 r2 w,
    isRadio (document w r1) = true ->
    isRadio (document w r2) = true ->
    value (document w r1) <> value (document w r2) ->
    let reg := @register App path fieldSchema in
    let w' := exec (refCallback reg (Some r2)) (exec (refCallback reg (Some r1)) w) in
    lookup (name reg ++ "." ++ value (document w r1))%string (fieldRefs w')
    = Some {| path := path; ref := r1 |} /\
    lookup (name reg ++ "." ++ value (document w r2))%string (fieldRefs w')
    = Some {| path := path; ref := r2 |} /\
    lookup (name reg) (fieldRefs w') = lookup (name reg) (fieldRefs w).
Proof.
  intros path fieldSchema r1 r2 w H1 H2 Hne. simpl. rewrite H1, H2.
  split; [|split].
  - rewrite lookup_assign_ne.
    + apply lookup_assign_eq.
    + intros H. apply append_inj_l in H. simpl in H. injection H as H.
      now apply Hne.
  - apply lookup_assign_eq.
  - rewrite !lookup_assign_ne by apply radio_key_differs. reflexivity.
Qed.

(** *** The effect and the controls *)

(** A later turn of the loop on the same control overrides an earlier
    one. *)
Lemma shown_absorb v1 v2 el : shown v2 (shown v1 el) = shown v2 el.
Proof.
  unfold shown at 1 3.
  rewrite (isRadio_type _ _ (shown_type v1 el)),
          (isCheckbox_type _ _ (shown_type v1 el)).
  unfold shown.
  destruct (isRadio el); [reflexivity|].
  destruct (isCheckbox el); reflexivity.
Qed.

Lemma loop_last fv fs w r :
  document (exec (forEach fs (setRegisteredField fv)) w) r =
  match lastFor r fs with
  | Some f => shown (getDeepProp fv (path f)) (document w r)
  | None => document w r
  end.
Proof.
  revert w. induction fs as [|f fs IH]; intros w; [reflexivity|].
  rewrite forEach_cons, IH, setRegisteredField_unfold. simpl.
  destruct (lastFor r fs) as [g|].
  - destruct (Nat.eq_dec r (ref f)) as [->|Hne].
    + now rewrite write_same, shown_absorb.
    + now rewrite write_other.
  - destruct (Nat.eqb (ref f) r) eqn:E.
    + apply Nat.eqb_eq in E. subst r. now rewrite write_same.
    + apply Nat.eqb_neq in E. rewrite write_other; [reflexivity | congruence].
Qed.

(** The state in which the effect leaves a control: that of the last
    entry of the table that names it. *)
Lemma watch_document w r :
  document (exec (watch options) w) r =
  match lastFor r (values (fieldRefs w)) with
  | Some f => shown (getDeepProp (formValue w) (path f)) (document w r)
  | None => document w r
  end.
Proof.
  rewrite watch_unfold, loop_last.
  assert (Hdoc : document (if validateOnChange w
                           then exec (validate options) w else w) = document w).
  { destruct (validateOnChange w); [|reflexivity].
    unfold exec. now rewrite validate_unfold. }
  now rewrite Hdoc.
Qed.

Lemma lastFor_None r fs :
  (forall f, In f fs -> ref f <> r) -> lastFor r fs = None.
Proof.
  induction fs as [|f fs IH]; intros H; [reflexivity|]. simpl.
  rewrite IH by (intros g Hg; apply H; now right).
  destruct (Nat.eqb (ref f) r) eqn:E; [|reflexivity].
  apply Nat.eqb_eq in E. now apply H in E; [|left].
Qed.

Lemma lastFor_NoDup fs f :
  NoDup (map ref fs) -> In f fs -> lastFor (ref f) fs = Some f.
Proof.
  induction fs as [|g fs IH]; intros Hnd Hin; [contradiction|].
  inversion Hnd as [|? ? Hfresh Hnd']; subst. simpl.
  destruct Hin as [->|Hin].
  - rewrite lastFor_None, Nat.eqb_refl; [reflexivity|].
    intros h Hh Heq. apply Hfresh. rewrite <- Heq. now apply in_map.
  - now rewrite IH.
Qed.

(** X5.  The effect is idempotent on the controls: run a second time on
    the same state, it leaves every control of the page as the first run
    left it, however the table is filled. *)
Theorem watch_twice_same_controls :
  forall w r,
    document (exec (watch options) (exec (watch options) w)) r
    = document (exec (watch options) w) r.
Proof.
  intros w r.
  rewrite (watch_document (exec (watch options) w)).
  destruct (watch_frame options w) as (-> & -> & _).
  rewrite watch_document.
  destruct (lastFor r (values (fieldRefs w))); [apply shown_absorb | reflexivity].
Qed.

(** X6.  The effect writes one property of a control and no other: it
    never changes the type of a control; it leaves the value of a radio
    or checkbox control and the checked state of any other control as
    they were; and it leaves a control that no entry of the table names
    untouched. *)
Theorem watch_writes_one_property :
  forall w r,
    let before := document w r in
    let after := document (exec (watch options) w) r in
    type after = type before /\
    (if isRadio before || isCheckbox before
     then value after = value before
     else checked after = checked before) /\
    ((forall f, In f (values (fieldRefs w)) -> ref f <> r) -> after = before).
Proof.
  intros w r. cbv zeta. rewrite watch_document.
  split; [|split].
  - destruct (lastFor r (values (fieldRefs w))); [apply shown_type | reflexivity].
  - destruct (lastFor r (values (fieldRefs w))) as [f|].
    + unfold shown. destruct (isRadio (document w r)); [reflexivity|].
      destruct (isCheckbox (document w r)); reflexivity.
    + destruct (isRadio (document w r) || isCheckbox (document w r)); reflexivity.
  - intros Hnone. now rewrite lastFor_None.
Qed.

(** X7.  With every control registered once, the effect leaves at most
    one option value of a radio group checked: of two radio controls
    registered for the same path whose values differ, the second is left
    unchecked whenever the first is left checked. *)
Theorem watch_checks_one_radio_value :
  forall w f1 f2,
    NoDup (map ref (values (fieldRefs w))) ->
    In f1 (values (fieldRefs w)) ->
    In f2 (values (fieldRefs w)) ->
    path f1 = path f2 ->
    isRadio (document w (ref f1)) = true ->
    isRadio (document w (ref f2)) = true ->
    value (document w (ref f1)) <> value (document w (ref f2)) ->
    let after := document (exec (watch options) w) in
    checked (after (ref f1)) = true ->
    checked (after (ref f2)) = false.
Proof.
  intros w f1 f2 Hnd H1 H2 Hpath Hr1 Hr2 Hne. cbv zeta.
  rewrite !watch_document.
  rewrite (lastFor_NoDup _ _ Hnd H1), (lastFor_NoDup _ _ Hnd H2).
  unfold shown. rewrite Hr1, Hr2, Hpath. simpl.
  intros Hc1. apply strict_eq_string_spec in Hc1.
  destruct (strict_eq_string (value (document w (ref f2)))
                             (getDeepProp (formValue w) (path f2))) eqn:Hc2;
    [|reflexivity].
  apply strict_eq_string_spec in Hc2. congruence.
Qed.

(** *** Parses and the baseline along a run *)


Lemma dispatch_baseline a w :
  internalInitialValues (exec (dispatch options a) w) =
  match a with
  | Reset values => orDefault (initialValues_ options) values
  | _ => internalInitialValues w
  end.
Proof.
  destruct a as [handler e | values | path fieldSchema e | path fieldSchema r].
  - rewrite dispatch_submit.
    destruct (negb (validateOnChange w)
              && validateOnChange (exec (handleSubmit options handler e) w)).
    + destruct (watch_frame options (exec (handleSubmit options handler e) w))
        as (_ & _ & _ & -> & _).
      rewrite handleSubmit_unfold. reflexivity.
    + rewrite handleSubmit_unfold. reflexivity.
  - unfold dispatch. rewrite exec_bind.
    destruct (watch_frame options (exec (reset options values) w))
      as (_ & _ & _ & -> & _).
    reflexivity.
  - unfold dispatch. rewrite exec_bind.
    destruct (watch_frame options (exec (onChange (register path fieldSchema) e) w))
      as (_ & _ & _ & -> & _).
    reflexivity.
  - destruct r as [r|]; reflexivity.
Qed.



(** X11.  A submit, with the effect it may set off, leaves the tree
    value as it is and so [isDirty]: the parsed data goes to the handler
    only, and a form that was dirty is dirty after a successful submit.
    The same holds for a mount or unmount of a control. *)
Theorem submit_keeps_tree_and_isDirty :
  (forall handler e w,
      let w' := exec (dispatch options (Submit handler e)) w in
      formValue w' = formValue w /\ isDirty w' = isDirty w) /\
  (forall path fieldSchema r w,
      let w' := exec (dispatch options (Attach path fieldSchema r)) w in
      formValue w' = formValue w /\ isDirty w' = isDirty w).
Proof.
  split.
  - intros handler e w. cbv zeta. unfold isDirty.
    rewrite (dispatch_baseline (Submit handler e) w).
    assert (Hfv : formValue (exec (dispatch options (Submit handler e)) w)
                  = formValue w).
    { rewrite dispatch_submit.
      destruct (negb (validateOnChange w)
                && validateOnChange (exec (handleSubmit options handler e) w)).
      - destruct (watch_frame options (exec (handleSubmit options handler e) w))
          as (-> & _).
        rewrite handleSubmit_unfold. reflexivity.
      - rewrite handleSubmit_unfold. reflexivity. }
    rewrite Hfv. split; reflexivity.
  - intros path fieldSchema r w. destruct r as [r|]; split; reflexivity.
Qed.

(** *** From a change event back to the controls *)

Lemma change_document p fieldSchema e w r :
  document (exec (dispatch options (Change p fieldSchema e)) w) r =
  match lastFor r (values (fieldRefs w)) with
  | Some f =>
      shown
        (getDeepProp
           (setDeepProp (formValue w) p
              (if isCheckboxType (type (currentTarget e))
               then VBool (checked (currentTarget e))
               else if negb (isZodString (unwrapZodType fieldSchema))
                       && strict_eq_string "" (VStr (value (currentTarget e)))
                    then VUndef
                    else VStr (value (currentTarget e))))
           (path f))
        (document w r)
  | None => document w r
  end.
Proof.
  unfold dispatch. rewrite exec_bind, watch_document. reflexivity.
Qed.

(** X12.  What is typed into a registered text control survives the
    round through the tree: after the change event and the effect that
    follows it, the control (registered for the path of the field, being
    neither radio nor checkbox) shows the very string of the event, also
    when the empty string was stored as [undefined]. *)
Theorem change_shows_what_was_typed :
  forall p fieldSchema e w r f,
    lastFor r (values (fieldRefs w)) = Some f ->
    path f = p ->
    isRadio (document w r) = false ->
    isCheckbox (document w r) = false ->
    isCheckboxType (type (currentTarget e)) = false ->
    value (document (exec (dispatch options (Change p fieldSchema e)) w) r)
    = value (currentTarget e).
Proof.
  intros p fieldSchema e w r f Hlast Hpath Hradio Hbox Hev.
  rewrite change_document, Hlast, Hpath, get_set_same, Hev.
  unfold shown. rewrite Hradio, Hbox.
  destruct (isZodString (unwrapZodType fieldSchema));
    destruct (value (currentTarget e)); reflexivity.
Qed.

(** X13.  A registered checkbox keeps the state the user gave it: after
    the change event of a checkbox and the effect that follows it, the
    checkbox control registered for the path is checked exactly when the
    event's control was. *)
Theorem change_keeps_checkbox_state :
  forall p fieldSchema e w r f,
    lastFor r (values (fieldRefs w)) = Some f ->
    path f = p ->
    isRadio (document w r) = false ->
    isCheckbox (document w r) = true ->
    isCheckboxType (type (currentTarget e)) = true ->
    checked (document (exec (dispatch options (Change p fieldSchema e)) w) r)
    = checked (currentTarget e).
Proof.
  intros p fieldSchema e w r f Hlast Hpath Hradio Hbox Hev.
  rewrite change_document, Hlast, Hpath, get_set_same, Hev.
  unfold shown. rewrite Hradio, Hbox. reflexivity.
Qed.

(** X14.  Choosing a radio option selects it in the group: after the
    change event of a control that is no checkbox and carries a non-empty
    value, and the effect that follows it, a radio control registered
    for the path is checked exactly when its own value is the value of
    the event. *)
Theorem change_selects_radio_option :
  forall p fieldSchema e w r f,
    lastFor r (values (fieldRefs w)) = Some f ->
    path f = p ->
    isRadio (document w r) = true ->
    isCheckboxType (type (currentTarget e)) = false ->
    value (currentTarget e) <> "" ->
    checked (document (exec (dispatch options (Change p fieldSchema e)) w) r)
    = (value (document w r) =? value (currentTarget e)).
Proof.
  intros p fieldSchema e w r f Hlast Hpath Hradio Hev Hs.
  rewrite change_document, Hlast, Hpath, get_set_same, Hev.
  rewrite (strict_eq_empty _ Hs), andb_false_r.
  unfold shown. rewrite Hradio. reflexivity.
Qed.


End MoreHookFacts.

(* ===================================================================== *)
(** ** The small form, further *)
(* ===================================================================== *)

Module MoreDemoFacts.
Import Demo.

Lemma onChange_stores_typed_string_witness :
  formValue (exec (onChange (register [Key "age"] ZodNumber) (typed "30")) fresh)
  = VObj [("age", VStr "30")].
Proof.
  destruct (onChange_stores_typed_string [Key "age"] ZodNumber (typed "30") fresh)
    as [H _]; [reflexivity | discriminate | exact H].
Defined.

Lemma register_name_is_dotted_witness :
  name (@register (list JSValue) [Key "nested"; Key "inside"; Key "here"] ZodString)
  = "nested.inside.here".
Proof.
  destruct (@register_name_is_dotted (list JSValue) (Key "here") ZodString)
    as [_ H].
  apply (H [Key "nested"; Key "inside"] (ZodObject [])). discriminate.
Defined.

Lemma refCallback_mount_then_unmount_witness :
  let reg := register [Key "name"] ZodString in
  lookup "name" (fieldRefs (exec (refCallback reg (Some 0)) fresh))
  = Some {| path := [Key "name"]; ref := 0 |} /\
  lookup "name"
    (fieldRefs (exec (refCallback reg None) (exec (refCallback reg (Some 0)) fresh)))
  = None.
Proof.
  destruct (refCallback_mount_then_unmount [Key "name"] ZodString 0 fresh)
    as [Hmount Hunmount]; [reflexivity|].
  split; [apply (Hmount "name") | apply (Hunmount "name")].
Defined.

Lemma refCallback_keeps_radio_options_apart_witness :
  let reg := register [Key "choice"] ZodString in
  let w := exec (refCallback reg (Some 2)) (exec (refCallback reg (Some 1)) fresh) in
  lookup "choice.a" (fieldRefs w) = Some {| path := [Key "choice"]; ref := 1 |} /\
  lookup "choice.b" (fieldRefs w) = Some {| path := [Key "choice"]; ref := 2 |}.
Proof.
  destruct (refCallback_keeps_radio_options_apart [Key "choice"] ZodString 1 2 fresh)
    as (Ha & Hb & _); [reflexivity | reflexivity | discriminate |].
  split; [exact Ha | exact Hb].
Defined.

Lemma watch_writes_one_property_witness :
  document (exec (watch options) registered) 7 = document registered 7.
Proof.
  apply (watch_writes_one_property options registered 7).
  intros f Hin. simpl in Hin.
  destruct Hin as [<-|[<-|[<-|[<-|[]]]]]; discriminate.
Defined.

(** The registered form with the option a chosen. *)
Lemma watch_checks_one_radio_value_witness :
  let w :=
    exec (onChange (register [Key "choice"] ZodString)
                   {| currentTarget := radio "a" |}) registered in
  checked (document (exec (watch options) w) 2) = false.
Proof.
  intros w.
  apply (watch_checks_one_radio_value options w
           {| path := [Key "choice"]; ref := 1 |}
           {| path := [Key "choice"]; ref := 2 |}).
  - simpl. repeat constructor; simpl; intuition discriminate.
  - simpl. auto.
  - simpl. auto.
  - reflexivity.
  - reflexivity.
  - reflexivity.
  - discriminate.
  - reflexivity.
Defined.

Lemma change_shows_what_was_typed_witness :
  value (document
           (exec (dispatch options (Change [Key "name"] ZodString (typed "Al")))
                 registered) 0) = "Al".
Proof.
  apply (change_shows_what_was_typed options [Key "name"] ZodString (typed "Al")
           registered 0 {| path := [Key "name"]; ref := 0 |}); reflexivity.
Defined.

Lemma change_keeps_checkbox_state_witness :
  checked (document
             (exec (dispatch options
                      (Change [Key "agree"] ZodBoolean
                         {| currentTarget :=
                              {| type := Some "checkbox"; value := "on";
                                 checked := true |} |}))
                   registered) 3) = true.
Proof.
  apply (change_keeps_checkbox_state options [Key "agree"] ZodBoolean
           {| currentTarget :=
                {| type := Some "checkbox"; value := "on"; checked := true |} |}
           registered 3 {| path := [Key "agree"]; ref := 3 |}); reflexivity.
Defined.

Lemma change_selects_radio_option_witness :
  checked (document
             (exec (dispatch options
                      (Change [Key "choice"] ZodString {| currentTarget := radio "b" |}))
                   registered) 2) = true.
Proof.
  apply (change_selects_radio_option options [Key "choice"] ZodString
           {| currentTarget := radio "b" |}
           registered 2 {| path := [Key "choice"]; ref := 2 |});
    try reflexivity.
  discriminate.
Defined.


End MoreDemoFacts.
